(** * swar-website: the browser host shim of a WebAssembly guest (src/index.js)

    A shallow embedding of the parts of [index.js] that carry the
    host/guest contract: the preload store, the input collector with its
    per-frame event queue, the serialisation of that queue into the guest's
    linear memory, the texture handle table, the vertex-buffer draw entry
    point and the animation-frame loop.

    Conventions.
    - A JavaScript number that holds an integer is a [Z]; a number that may
      be fractional (client coordinates, wheel deltas) is the rational [Q]
      that the double stands for, and a subtraction of two such numbers is
      rounded as IEEE 754 rounds it ([double_sub]).  Integers are exact in
      a JavaScript number below 2^53, a bound that no counter of this page
      reaches.
    - The guest's linear memory is a [list byte]; a typed-array or DataView
      access out of its bounds raises RangeError.
    - A JavaScript exception is [None] in the [option] monad: nothing in
      [index.js] catches an exception of the per-frame code, so the frame
      loop is not rescheduled after one. *)

From Stdlib Require Import ZArith QArith Qround Qabs Qpower Lqa.
From Stdlib Require Import List Ascii String Lia.
From stdpp Require Import base option list gmap strings.
From coqutil Require Import Byte Word.LittleEndianList.
Import ListNotations.
Local Open Scope Z_scope.

(* ====================================================================== *)
(** * Linear memory, typed-array and DataView accesses *)
(* ====================================================================== *)

(** ECMAScript [ToInt32]: the integer modulo 2^32, read as a signed word. *)
Definition ToInt32 (v : Z) : Z := (v + 2 ^ 31) mod 2 ^ 32 - 2 ^ 31.

(** [is_int32 v]: [v] is representable as a signed 32-bit integer. *)
Definition is_int32 (v : Z) : Prop := - 2 ^ 31 <= v < 2 ^ 31.

#[global] Instance is_int32_dec v : Decision (is_int32 v).
Proof. unfold is_int32. apply _. Defined.

(** Overwrite [length bs] bytes of [view] from index [off] on. *)
Definition splice (view : list byte) (off : nat) (bs : list byte) : list byte :=
  take off view ++ bs ++ drop (off + length bs) view.

(** The bounds check of [new Uint8Array(buffer, byteOffset, length)] and of
    the DataView accessors: both indices are non-negative and the range
    lies inside the buffer. *)
Definition in_bounds (view : list byte) (byteOffset len : Z) : Prop :=
  0 <= byteOffset /\ 0 <= len /\ byteOffset + len <= Z.of_nat (length view).

#[global] Instance in_bounds_dec view o l : Decision (in_bounds view o l).
Proof. unfold in_bounds. apply _. Defined.

(** [new Uint8Array(buffer, byteOffset, length)], read as a copy of the
    bytes it views. *)
Definition Uint8Array (buffer : list byte) (byteOffset len : Z)
  : option (list byte) :=
  if decide (in_bounds buffer byteOffset len)
  then Some (take (Z.to_nat len) (drop (Z.to_nat byteOffset) buffer))
  else None.

(** [view.setInt32(byteOffset, value, true)]: four little-endian bytes. *)
Definition setInt32 (view : list byte) (byteOffset value : Z)
  : option (list byte) :=
  if decide (in_bounds view byteOffset 4)
  then Some (splice view (Z.to_nat byteOffset) (le_split 4 (ToInt32 value)))
  else None.

(** [view.getInt32(byteOffset, true)]. *)
Definition getInt32 (view : list byte) (byteOffset : Z) : option Z :=
  bytes ← Uint8Array view byteOffset 4;
  Some (ToInt32 (le_combine bytes)).

(* ====================================================================== *)
(** * Event system: enumerations and records *)
(* ====================================================================== *)

Module OS_Window_Event_Type.
Definition NIL : Z := 0.
Definition CLOSE : Z := 1.
Definition RESIZE : Z := 2.
Definition KEYBOARD : Z := 3.
Definition MOUSE_BUTTON : Z := 4.
Definition MOUSE_MOVE : Z := 5.
Definition MOUSE_SCROLL : Z := 6.
End OS_Window_Event_Type.

Module OS_Key.
Definition UNKNOWN : Z := 0.
Definition MOUSE_L : Z := 1.
Definition MOUSE_M : Z := 2.
Definition MOUSE_R : Z := 3.
Definition LCONTROL : Z := 256.
Definition RCONTROL : Z := 257.
Definition LSHIFT : Z := 258.
Definition RSHIFT : Z := 259.
Definition LALT : Z := 260.
Definition RALT : Z := 261.
Definition META : Z := 262.
Definition TAB : Z := 263.
Definition CAPS : Z := 264.
Definition BACKSPACE : Z := 265.
Definition DELETE : Z := 266.
Definition RETURN : Z := 267.
Definition ESCAPE : Z := 268.
Definition SPACE : Z := 269.
Definition UP : Z := 270.
Definition RIGHT : Z := 271.
Definition DOWN : Z := 272.
Definition LEFT : Z := 273.
Definition HOME : Z := 274.
Definition END : Z := 275.
Definition F1 : Z := 276.
Definition F2 : Z := 277.
Definition F3 : Z := 278.
Definition F4 : Z := 279.
Definition F5 : Z := 280.
Definition F6 : Z := 281.
Definition F7 : Z := 282.
Definition F8 : Z := 283.
Definition F9 : Z := 284.
Definition F10 : Z := 285.
Definition F11 : Z := 286.
Definition F12 : Z := 287.
End OS_Key.

(** One entry of [eventQueue]: the object literal [{ type, x, y, pressed,
    key }] built by [pushEvent]. *)
Module Event.
Record t : Set := mk { type : Z; x : Z; y : Z; pressed : Z; key : Z }.

(** Every field fits the 4-byte signed slot of the guest's struct. *)
Definition int32 (e : t) : Prop :=
  is_int32 (type e) /\ is_int32 (x e) /\ is_int32 (y e) /\
  is_int32 (pressed e) /\ is_int32 (key e).

#[global] Instance int32_dec e : Decision (int32 e).
Proof. unfold int32. apply _. Defined.

(** The record the guest reads back when a field does not fit. *)
Definition wrap (e : t) : t :=
  mk (ToInt32 (type e)) (ToInt32 (x e)) (ToInt32 (y e))
     (ToInt32 (pressed e)) (ToInt32 (key e)).
End Event.

(** [const bytesPerEvent = 20] *)
Definition bytesPerEvent : Z := 20.

(** The 20 bytes that the five [setInt32] calls of one loop iteration of
    [writeEventsToWASM] leave in memory. *)
Definition event_bytes (e : Event.t) : list byte :=
  le_split 4 (ToInt32 (Event.type e)) ++ le_split 4 (ToInt32 (Event.x e)) ++
  le_split 4 (ToInt32 (Event.y e)) ++ le_split 4 (ToInt32 (Event.pressed e)) ++
  le_split 4 (ToInt32 (Event.key e)).

(** The body of the [for] loop of [writeEventsToWASM]. *)
Definition write_event (view : list byte) (offset : Z) (event : Event.t)
  : option (list byte) :=
  view ← setInt32 view (offset + 0) (Event.type event);
  view ← setInt32 view (offset + 4) (Event.x event);
  view ← setInt32 view (offset + 8) (Event.y event);
  view ← setInt32 view (offset + 12) (Event.pressed event);
  setInt32 view (offset + 16) (Event.key event).

(** [for (let i = 0; i < maxEvents; i++) { ...; offset += bytesPerEvent }],
    with [remaining = maxEvents - i] iterations still to run. *)
Fixpoint write_loop (remaining : nat) (eventQueue : list Event.t) (i : nat)
    (view : list byte) (offset : Z) : option (list byte) :=
  match remaining with
  | O => Some view
  | S remaining' =>
      event ← eventQueue !! i;
      view ← write_event view offset event;
      write_loop remaining' eventQueue (S i) view (offset + bytesPerEvent)
  end.

(** The guest's view of the buffer, by the layout that the comment of
    [writeEventsToWASM] gives for one [OS_Window_Event] struct: five 4-byte
    fields [type], [x], [y], [pressed], [key], 20 bytes in all, each read
    back as the little-endian signed word that [setInt32] wrote. *)
Definition read_event (view : list byte) (offset : Z) : option Event.t :=
  type ← getInt32 view (offset + 0);
  x ← getInt32 view (offset + 4);
  y ← getInt32 view (offset + 8);
  pressed ← getInt32 view (offset + 12);
  key ← getInt32 view (offset + 16);
  Some (Event.mk type x y pressed key).

Fixpoint read_events (count : nat) (view : list byte) (offset : Z)
  : option (list Event.t) :=
  match count with
  | O => Some []
  | S count' =>
      e ← read_event view offset;
      es ← read_events count' view (offset + bytesPerEvent);
      Some (e :: es)
  end.

(* ====================================================================== *)
(** * JavaScript strings and the key mapping *)
(* ====================================================================== *)

(** A JavaScript string is its sequence of UTF-16 code units. *)
Abbreviation jsstring := (list N).

(** An ASCII literal of the source as a JavaScript string. *)
Definition js (s : string) : jsstring := N_of_ascii <$> list_ascii_of_string s.

(** [a < b] on strings: lexicographic on code units, a proper prefix is
    smaller. *)
Fixpoint str_ltb (a b : jsstring) : bool :=
  match a, b with
  | _, [] => false
  | [], _ :: _ => true
  | c :: a', d :: b' =>
      if (c <? d)%N then true else if (d <? c)%N then false else str_ltb a' b'
  end.

(** [a >= b] and [a <= b] on strings. *)
Definition str_geb (a b : jsstring) : bool := negb (str_ltb a b).
Definition str_leb (a b : jsstring) : bool := negb (str_ltb b a).

(** [s.charCodeAt(0)].  On the empty string JavaScript gives NaN; the two
    callers below only reach it with a non-empty string. *)
Definition charCodeAt0 (s : jsstring) : Z :=
  match s with
  | c :: _ => Z.of_N c
  | [] => 0
  end.

(** [s.toLowerCase()] on the code units 'A'..'Z'; [mapKeyToOSKey] applies
    it to a one-unit string in that range only. *)
Definition toLowerCase (s : jsstring) : jsstring :=
  (fun c => if ((65 <=? c) && (c <=? 90))%N then (c + 32)%N else c) <$> s.

Module KeyboardEvent.
Record t : Set := mk { key : jsstring; code : jsstring; location : Z }.
End KeyboardEvent.

(** [key === lit], one [case] of the [switch]. *)
Definition case (key : jsstring) (lit : string) : bool :=
  bool_decide (key = js lit).

Definition mapKeyToOSKey (event : KeyboardEvent.t) : Z :=
  let key := KeyboardEvent.key event in
  let location := KeyboardEvent.location event in
  (* Numbers *)
  if str_geb key (js "0") && str_leb key (js "9") then charCodeAt0 key
  (* Letters (convert to lowercase) *)
  else if (Z.of_nat (length key) =? 1) && str_geb key (js "A")
          && str_leb key (js "Z")
  then charCodeAt0 (toLowerCase key)
  else if (Z.of_nat (length key) =? 1) && str_geb key (js "a")
          && str_leb key (js "z")
  then charCodeAt0 key
  (* Special keys *)
  else if case key "Control"
  then (if location =? 1 then OS_Key.LCONTROL else OS_Key.RCONTROL)
  else if case key "Shift"
  then (if location =? 1 then OS_Key.LSHIFT else OS_Key.RSHIFT)
  else if case key "Alt"
  then (if location =? 1 then OS_Key.LALT else OS_Key.RALT)
  else if case key "Meta" then OS_Key.META
  else if case key "Tab" then OS_Key.TAB
  else if case key "CapsLock" then OS_Key.CAPS
  else if case key "Backspace" then OS_Key.BACKSPACE
  else if case key "Delete" then OS_Key.DELETE
  else if case key "Enter" then OS_Key.RETURN
  else if case key "Escape" then OS_Key.ESCAPE
  else if case key " " then OS_Key.SPACE
  else if case key "ArrowUp" then OS_Key.UP
  else if case key "ArrowRight" then OS_Key.RIGHT
  else if case key "ArrowDown" then OS_Key.DOWN
  else if case key "ArrowLeft" then OS_Key.LEFT
  else if case key "Home" then OS_Key.HOME
  else if case key "End" then OS_Key.END
  else if case key "F1" then OS_Key.F1
  else if case key "F2" then OS_Key.F2
  else if case key "F3" then OS_Key.F3
  else if case key "F4" then OS_Key.F4
  else if case key "F5" then OS_Key.F5
  else if case key "F6" then OS_Key.F6
  else if case key "F7" then OS_Key.F7
  else if case key "F8" then OS_Key.F8
  else if case key "F9" then OS_Key.F9
  else if case key "F10" then OS_Key.F10
  else if case key "F11" then OS_Key.F11
  else if case key "F12" then OS_Key.F12
  else OS_Key.UNKNOWN.

Definition mapMouseButtonToOSKey (button : Z) : Z :=
  if button =? 0 then OS_Key.MOUSE_L
  else if button =? 1 then OS_Key.MOUSE_M
  else if button =? 2 then OS_Key.MOUSE_R
  else OS_Key.UNKNOWN.

(* ====================================================================== *)
(** * Mouse and wheel events *)
(* ====================================================================== *)

Module MouseEvent.
Record t : Set := mk { clientX : Q; clientY : Q; button : Z }.
End MouseEvent.

Module WheelEvent.
Record t : Set := mk { deltaX : Q; deltaY : Q }.
End WheelEvent.

(** The result of [canvas.getBoundingClientRect()]; only [left] and [top]
    are read. *)
Module DOMRect.
Record t : Set := mk { left : Q; top : Q }.
End DOMRect.

(** [Math.floor] and [Math.sign] on a finite number. *)
Definition Math_floor (v : Q) : Z := Qfloor v.
Definition Math_sign (v : Q) : Z := Z.sgn (Qnum v).

(** ** Double-precision subtraction

    [a - b] on two JavaScript numbers is the exact difference rounded to
    the nearest double, ties to the even significand (IEEE 754 binary64:
    53 significant bits, least exponent -1074). *)

(** The integer part of the binary logarithm of [|q|], for [q] not 0. *)
Definition Qlog2 (q : Q) : Z :=
  let k := Z.log2 (Z.abs (Qnum q)) - Z.log2 (Zpos (Qden q)) in
  if Qle_bool (2 ^ k) (Qabs q) then k else k - 1.

(** The nearest integer, the even one of the two when [m] is half-way. *)
Definition round_half_even (m : Q) : Z :=
  let f := Qfloor m in
  match (m - inject_Z f ?= 1 # 2)%Q with
  | Lt => f
  | Gt => f + 1
  | Eq => if Z.even f then f else f + 1
  end.

(** The values that round to a finite double: those below
    [2^1024 - 2^970] in size.  Beyond, JavaScript gives an infinity, which
    the integer fields of this model do not hold. *)
Definition double_finite (q : Q) : Prop := (Qabs q < 2 ^ 1024 - 2 ^ 970)%Q.

(** The double nearest to [q], for [double_finite q]: [q] is rounded to a
    multiple of [2^e], where [2^e] is the unit in the last place of the
    53-bit significand of [q], or [2^-1074] in the subnormal range. *)
Definition double_round (q : Q) : Q :=
  if Qnum q =? 0 then 0%Q
  else
    let e := Z.max (Qlog2 q - 52) (-1074) in
    (inject_Z (round_half_even (q / 2 ^ e)) * 2 ^ e)%Q.

(** [a - b] on two doubles. *)
Definition double_sub (a b : Q) : Q := double_round (a - b).

(** [getMousePos(event)], with [rect] the canvas's bounding box at the time
    of the call. *)
Definition getMousePos (rect : DOMRect.t) (event : MouseEvent.t) : Z * Z :=
  (Math_floor (double_sub (MouseEvent.clientX event) (DOMRect.left rect)),
   Math_floor (double_sub (MouseEvent.clientY event) (DOMRect.top rect))).

(* ====================================================================== *)
(** * The page: event queue, guest instance and frame loop *)
(* ====================================================================== *)

(** A call of a guest export, as the host issues it. *)
Inductive ExportCall : Set :=
| Call_wasm_get_event_buffer
| Call_wasm_set_event_count (count : Z)
| Call_wasm_frame.

Section Host.
(** Everything the guest reaches besides its linear memory: its globals
    and, through its imports, the render backend, the console and the
    document.  No import of [index.js] reads or writes [eventQueue] or
    [mousePos]. *)
Context {Env : Type}.

(** [wasm.instance]: the linear memory and the rest of the guest. *)
Record Instance : Type := { memory : list byte; env : Env }.

(** [wasm.instance.exports].  An export runs guest code: it may change
    the instance and it may trap ([None]).  [wasm_frame] may be missing,
    which [gameLoop] tests. *)
Record Exports : Type := {
  wasm_get_event_buffer : Instance -> option (Z * Instance);
  wasm_set_event_count : Z -> Instance -> option Instance;
  wasm_frame : option (Instance -> option Instance)
}.

(** The module-level variables of the input side, the guest instance and
    the log of the export calls made so far. *)
Record Page : Type := {
  eventQueue : list Event.t;
  mousePos : Z * Z;
  wasm : Instance;
  calls : list ExportCall
}.

Definition pushEvent (type x y pressed key : Z) (p : Page) : Page :=
  {| eventQueue := eventQueue p ++ [Event.mk type x y pressed key];
     mousePos := mousePos p; wasm := wasm p; calls := calls p |}.

Definition clearEventQueue (p : Page) : Page :=
  {| eventQueue := []; mousePos := mousePos p; wasm := wasm p;
     calls := calls p |}.

(** ** The listeners installed by [setupEventListeners] *)

Definition on_keydown (event : KeyboardEvent.t) (p : Page) : Page :=
  let osKey := mapKeyToOSKey event in
  if negb (osKey =? OS_Key.UNKNOWN)
  then pushEvent OS_Window_Event_Type.KEYBOARD 0 0 1 osKey p
  else p.

Definition on_keyup (event : KeyboardEvent.t) (p : Page) : Page :=
  let osKey := mapKeyToOSKey event in
  if negb (osKey =? OS_Key.UNKNOWN)
  then pushEvent OS_Window_Event_Type.KEYBOARD 0 0 0 osKey p
  else p.

Definition on_mousedown (rect : DOMRect.t) (event : MouseEvent.t) (p : Page)
  : Page :=
  let pos := getMousePos rect event in
  let osKey := mapMouseButtonToOSKey (MouseEvent.button event) in
  pushEvent OS_Window_Event_Type.MOUSE_BUTTON pos.1 pos.2 1 osKey p.

Definition on_mouseup (rect : DOMRect.t) (event : MouseEvent.t) (p : Page)
  : Page :=
  let pos := getMousePos rect event in
  let osKey := mapMouseButtonToOSKey (MouseEvent.button event) in
  pushEvent OS_Window_Event_Type.MOUSE_BUTTON pos.1 pos.2 0 osKey p.

Definition on_mousemove (rect : DOMRect.t) (event : MouseEvent.t) (p : Page)
  : Page :=
  let pos := getMousePos rect event in
  let p := {| eventQueue := eventQueue p; mousePos := pos; wasm := wasm p;
              calls := calls p |} in
  pushEvent OS_Window_Event_Type.MOUSE_MOVE pos.1 pos.2 0 0 p.

Definition on_wheel (event : WheelEvent.t) (p : Page) : Page :=
  let scrollDirectionY := - Math_sign (WheelEvent.deltaY event) in
  let scrollDirectionX := - Math_sign (WheelEvent.deltaX event) in
  pushEvent OS_Window_Event_Type.MOUSE_SCROLL
            scrollDirectionX scrollDirectionY 0 0 p.

(** [handleFullscreenChange]: both branches end in one [pushEvent] of a
    RESIZE record; [width] and [height] stand for the canvas size the
    branch computed from the window and the saved canvas size. *)
Definition on_fullscreenchange (width height : Z) (p : Page) : Page :=
  pushEvent OS_Window_Event_Type.RESIZE width height 0 0 p.

(** ** Flush and frame loop *)

Variable exports : Exports.

Definition writeEventsToWASM (p : Page) : option Page :=
  let count := Z.of_nat (length (eventQueue p)) in
  if count =? 0 then Some p
  else
    '(eventBufferPtr, inst) ← wasm_get_event_buffer exports (wasm p);
    let buffer := memory inst in
    let offset := eventBufferPtr in
    let maxEvents := Z.min count 128 in
    view ← write_loop (Z.to_nat maxEvents) (eventQueue p) 0 buffer offset;
    inst ← wasm_set_event_count exports maxEvents
             {| memory := view; env := env inst |};
    Some {| eventQueue := eventQueue p; mousePos := mousePos p;
            wasm := inst;
            calls := calls p ++ [Call_wasm_get_event_buffer;
                                 Call_wasm_set_event_count maxEvents] |}.

(** One run of [gameLoop], up to its [requestAnimationFrame(gameLoop)].
    [wasm] is assigned before [gameLoop] is first scheduled, so its test
    [wasm && ...] reduces to the presence of the [wasm_frame] export. *)
Definition gameLoop (p : Page) : option Page :=
  p ← match wasm_frame exports with
      | Some frame =>
          p ← (if 0 <? Z.of_nat (length (eventQueue p))
               then writeEventsToWASM p else Some p);
          inst ← frame (wasm p);
          Some {| eventQueue := eventQueue p; mousePos := mousePos p;
                  wasm := inst; calls := calls p ++ [Call_wasm_frame] |}
      | None => Some p
      end;
  Some (clearEventQueue p).

(** ** Runs of the page *)

(** What the browser delivers to the page after [init]: a DOM event for
    one of the listeners, or an animation-frame callback. *)
Inductive Input : Type :=
| KeyDown (event : KeyboardEvent.t)
| KeyUp (event : KeyboardEvent.t)
| MouseDown (rect : DOMRect.t) (event : MouseEvent.t)
| MouseUp (rect : DOMRect.t) (event : MouseEvent.t)
| MouseMove (rect : DOMRect.t) (event : MouseEvent.t)
| Wheel (event : WheelEvent.t)
| FullscreenChange (width height : Z)
| AnimationFrame.

Definition is_tick (i : Input) : bool :=
  match i with AnimationFrame => true | _ => false end.

Definition step (p : Page) (i : Input) : option Page :=
  match i with
  | KeyDown event => Some (on_keydown event p)
  | KeyUp event => Some (on_keyup event p)
  | MouseDown rect event => Some (on_mousedown rect event p)
  | MouseUp rect event => Some (on_mouseup rect event p)
  | MouseMove rect event => Some (on_mousemove rect event p)
  | Wheel event => Some (on_wheel event p)
  | FullscreenChange width height => Some (on_fullscreenchange width height p)
  | AnimationFrame => gameLoop p
  end.

Fixpoint run (p : Page) (inputs : list Input) : option Page :=
  match inputs with
  | [] => Some p
  | i :: inputs' => p' ← step p i; run p' inputs'
  end.
End Host.

Arguments Instance : clear implicits.
Arguments Exports : clear implicits.
Arguments Page : clear implicits.
Arguments Input : clear implicits.

(* ====================================================================== *)
(** * File preloading system *)
(* ====================================================================== *)

(** [const filesToPreload = ['public/font.ttf']] *)
Definition filesToPreload : list jsstring := [js "public/font.ttf"].

Section Preload.
(** [new TextDecoder().decode(bytes)], the browser's UTF-8 decoder. *)
Variable decode : list byte -> jsstring.

(** The outcome of [fetch(filepath)] followed by [arrayBuffer()]: the
    bytes, or [None] when the response is not ok or the request throws
    (both are logged and leave the store as it is). *)
Variable fetch : jsstring -> option (list byte).

(** [preloadFiles]: every path whose fetch succeeds is set in the map. *)
Definition preloadFiles (preloadedFiles : gmap (list N) (list byte))
  : gmap (list N) (list byte) :=
  foldl (fun files filepath =>
           match fetch filepath with
           | Some uint8Array => <[filepath := uint8Array]> files
           | None => files
           end) preloadedFiles filesToPreload.

Definition cstr_by_ptr (mem_buffer : list byte) (ptr count : Z)
  : option jsstring :=
  bytes ← Uint8Array mem_buffer ptr count;
  Some (decode bytes).

(** The outer [option] is the exception, the inner one is [null]. *)
Definition js_get_preloaded_file (preloadedFiles : gmap (list N) (list byte))
    (buffer : list byte) (path_ptr path_len : Z)
  : option (option (list byte)) :=
  path ← cstr_by_ptr buffer path_ptr path_len;
  Some (preloadedFiles !! path).

(** Returns the number of bytes copied and the memory after the copy. *)
Definition js_copy_file_to_wasm (preloadedFiles : gmap (list N) (list byte))
    (buffer : list byte) (path_ptr path_len dest_ptr max_size : Z)
  : option (Z * list byte) :=
  fileData ← js_get_preloaded_file preloadedFiles buffer path_ptr path_len;
  match fileData with
  | None => Some (0, buffer)
  | Some fileData =>
      let bytesToCopy := Z.min (Z.of_nat (length fileData)) max_size in
      if decide (in_bounds buffer dest_ptr bytesToCopy)
      then Some (bytesToCopy,
                 splice buffer (Z.to_nat dest_ptr)
                        (take (Z.to_nat bytesToCopy) fileData))
      else None
  end.

Definition js_get_file_size (preloadedFiles : gmap (list N) (list byte))
    (buffer : list byte) (path_ptr path_len : Z) : option Z :=
  fileData ← js_get_preloaded_file preloadedFiles buffer path_ptr path_len;
  Some (match fileData with
        | Some fileData => Z.of_nat (length fileData)
        | None => 0
        end).
End Preload.

(* ====================================================================== *)
(** * Render backend: the WebGL context as a log of calls *)
(* ====================================================================== *)

Module PixelFormat.
Definition RGBA : Z := 0.
Definition RGB : Z := 1.
Definition R : Z := 2.
Definition ALPHA : Z := 3.
End PixelFormat.

Module GL.
(** The constants of the context that [index.js] names. *)
Inductive enum : Set :=
| TEXTURE_2D | TEXTURE_WRAP_S | TEXTURE_WRAP_T | CLAMP_TO_EDGE
| TEXTURE_MIN_FILTER | TEXTURE_MAG_FILTER | LINEAR | NEAREST
| RGBA | RGB | RED | ALPHA | UNSIGNED_BYTE | FLOAT
| TEXTURE0 | ARRAY_BUFFER | STREAM_DRAW | TRIANGLES.

#[global] Instance enum_eq_dec : EqDecision enum.
Proof. solve_decision. Defined.

(** A WebGL object (texture, buffer, program) is known by its identity. *)
Definition object : Set := nat.

(** The calls on [gl] made by the functions below, with their arguments;
    an [undefined] or [null] argument is [None]. *)
Inductive call : Type :=
| createTexture (result : object)
| bindTexture (target : enum) (texture : option object)
| texParameteri (target pname param : enum)
| texImage2D (target : enum) (level : Z) (internalformat : option enum)
             (width height border : Z) (format : option enum) (type : enum)
             (pixels : option (list byte))
| deleteTexture (texture : object)
| activeTexture (texture : enum)
| createBuffer (result : object)
| bindBuffer (target : enum) (buffer : object)
| bufferData (target : enum) (data : list byte) (usage : enum)
| useProgram (program : object)
| enableVertexAttribArray (index : Z)
| vertexAttribPointer (index size : Z) (type : enum) (normalized : bool)
                      (stride offset : Z)
| uniformMatrix4fv (location : Z) (transpose : bool) (data : list byte)
| uniform1i (location : Z) (v : Z)
| drawArrays (mode : enum) (first count : Z)
| deleteBuffer (buffer : object).

(** The context: the next fresh object and the calls received so far. *)
Record ctx : Type := { next_object : object; log : list call }.

Definition emit (cs : list call) (g : ctx) : ctx :=
  {| next_object := next_object g; log := log g ++ cs |}.

Definition fresh (mk : object -> call) (g : ctx) : object * ctx :=
  (next_object g,
   {| next_object := S (next_object g);
      log := log g ++ [mk (next_object g)] |}).

Definition is_draw (c : call) : bool :=
  match c with drawArrays _ _ _ => true | _ => false end.

Definition is_attrib_pointer (c : call) : bool :=
  match c with vertexAttribPointer _ _ _ _ _ _ => true | _ => false end.
End GL.

(** [programInfo], as [webgl_init] fills it. *)
Record ProgramInfo : Set := {
  program : GL.object;
  attrib_vertexPosition : Z;
  attrib_color : Z;
  attrib_uv : Z;
  uniform_projectionMatrix : Z;
  uniform_modelViewMatrix : Z;
  uniform_texture : Z;
  uniform_useTexture : Z;
  uniform_isText : Z
}.

(** The module-level variables of the render side.  [gl] is the context
    that [js_create_canvas] obtained; [programInfo] is [None] until
    [webgl_init] ran. *)
Record Render : Type := {
  gl : GL.ctx;
  programInfo : option ProgramInfo;
  matProj : list byte;
  matModel : list byte;
  textureMap : gmap Z GL.object;
  nextTextureHandle : Z;
  currentTexture : option GL.object;
  currentTexturePixelFormat : Z
}.

(** [new Float32Array(buffer, ptr, count)], as the bytes it views: the
    offset must be a multiple of 4 and the range must lie in the buffer. *)
Definition float32_array_by_ptr (buffer : list byte) (ptr count : Z)
  : option (list byte) :=
  if decide (ptr mod 4 = 0) then Uint8Array buffer ptr (4 * count) else None.

(** The [switch (pixel_format)] of [webgl_create_texture]:
    [(glFormat, glInternalFormat, bytesPerPixel)], all [undefined] when no
    case matches. *)
Definition texture_format (pixel_format : Z) : option (GL.enum * GL.enum * Z) :=
  if pixel_format =? PixelFormat.RGBA then Some (GL.RGBA, GL.RGBA, 4)
  else if pixel_format =? PixelFormat.RGB then Some (GL.RGB, GL.RGBA, 3)
  else if pixel_format =? PixelFormat.R then Some (GL.RED, GL.RGBA, 1)
  else if pixel_format =? PixelFormat.ALPHA then Some (GL.ALPHA, GL.ALPHA, 1)
  else None.

(** Returns the handle and the render state after the call. *)
Definition webgl_create_texture (buffer : list byte)
    (data_ptr width height pixel_format filter : Z) (r : Render)
  : option (Z * Render) :=
  let '(texture, g) := GL.fresh GL.createTexture (gl r) in
  let handle := nextTextureHandle r in
  let nextTextureHandle' := handle + 1 in
  let textureMap' := <[handle := texture]> (textureMap r) in
  let g := GL.emit
    [GL.bindTexture GL.TEXTURE_2D (Some texture);
     GL.texParameteri GL.TEXTURE_2D GL.TEXTURE_WRAP_S GL.CLAMP_TO_EDGE;
     GL.texParameteri GL.TEXTURE_2D GL.TEXTURE_WRAP_T GL.CLAMP_TO_EDGE] g in
  let g :=
    if negb (filter =? 0)
    then GL.emit
           [GL.texParameteri GL.TEXTURE_2D GL.TEXTURE_MIN_FILTER GL.LINEAR;
            GL.texParameteri GL.TEXTURE_2D GL.TEXTURE_MAG_FILTER GL.LINEAR] g
    else GL.emit
           [GL.texParameteri GL.TEXTURE_2D GL.TEXTURE_MIN_FILTER GL.NEAREST;
            GL.texParameteri GL.TEXTURE_2D GL.TEXTURE_MAG_FILTER GL.NEAREST] g
  in
  let fmt := texture_format pixel_format in
  let glFormat := (fun f => f.1.1) <$> fmt in
  let glInternalFormat := (fun f => f.1.2) <$> fmt in
  pixels ←
    (if negb (data_ptr =? 0)
     then
       (* [width * height * undefined] is NaN, a length of 0 *)
       let dataSize := match fmt with
                       | Some f => width * height * f.2
                       | None => 0
                       end in
       data ← Uint8Array buffer data_ptr dataSize; Some (Some data)
     else Some None);
  let g := GL.emit [GL.texImage2D GL.TEXTURE_2D 0 glInternalFormat width height
                                  0 glFormat GL.UNSIGNED_BYTE pixels] g in
  Some (handle,
        {| gl := g; programInfo := programInfo r; matProj := matProj r;
           matModel := matModel r; textureMap := textureMap';
           nextTextureHandle := nextTextureHandle';
           currentTexture := currentTexture r;
           currentTexturePixelFormat := currentTexturePixelFormat r |}).

Definition webgl_destroy_texture (handle : Z) (r : Render) : Render :=
  match textureMap r !! handle with
  | Some texture =>
      {| gl := GL.emit [GL.deleteTexture texture] (gl r);
         programInfo := programInfo r; matProj := matProj r;
         matModel := matModel r; textureMap := delete handle (textureMap r);
         nextTextureHandle := nextTextureHandle r;
         currentTexture := currentTexture r;
         currentTexturePixelFormat := currentTexturePixelFormat r |}
  | None => r
  end.

Definition webgl_set_texture (handle pixel_format : Z) (r : Render) : Render :=
  if negb (handle =? 0)
  then
    match textureMap r !! handle with
    | Some texture =>
        {| gl := GL.emit [GL.activeTexture GL.TEXTURE0;
                          GL.bindTexture GL.TEXTURE_2D (Some texture)] (gl r);
           programInfo := programInfo r; matProj := matProj r;
           matModel := matModel r; textureMap := textureMap r;
           nextTextureHandle := nextTextureHandle r;
           currentTexture := Some texture;
           currentTexturePixelFormat := pixel_format |}
    | None => r
    end
  else
    {| gl := GL.emit [GL.bindTexture GL.TEXTURE_2D None] (gl r);
       programInfo := programInfo r; matProj := matProj r;
       matModel := matModel r; textureMap := textureMap r;
       nextTextureHandle := nextTextureHandle r;
       currentTexture := None;
       currentTexturePixelFormat := currentTexturePixelFormat r |}.

(** The GL calls of [webgl_draw_vertex_buffer] after the upload of the
    vertex data, in source order. *)
Definition draw_calls (info : ProgramInfo) (r : Render) (posBuffer : GL.object)
    (count vert_size vert_stride vert_offset uv_stride uv_offset
     color_stride color_offset color_is_float : Z) : list GL.call :=
  [GL.useProgram (program info);
   GL.enableVertexAttribArray (attrib_vertexPosition info);
   GL.vertexAttribPointer (attrib_vertexPosition info) vert_size GL.FLOAT false
                          vert_stride vert_offset;
   GL.enableVertexAttribArray (attrib_color info);
   GL.vertexAttribPointer (attrib_color info) 4 GL.FLOAT false
                          color_stride color_offset;
   GL.enableVertexAttribArray (attrib_uv info);
   GL.vertexAttribPointer (attrib_uv info) 2
                          (if negb (color_is_float =? 0)
                           then GL.FLOAT else GL.UNSIGNED_BYTE)
                          false uv_stride uv_offset;
   GL.uniformMatrix4fv (uniform_projectionMatrix info) false (matProj r);
   GL.uniformMatrix4fv (uniform_modelViewMatrix info) false (matModel r);
   GL.uniform1i (uniform_texture info) 0;
   GL.uniform1i (uniform_useTexture info)
                (if currentTexture r is Some _ then 1 else 0);
   GL.uniform1i (uniform_isText info)
                (if currentTexturePixelFormat r =? PixelFormat.ALPHA
                 then 1 else 0);
   GL.drawArrays GL.TRIANGLES 0 count;
   GL.deleteBuffer posBuffer].

Definition webgl_draw_vertex_buffer (buffer : list byte)
    (count vert_data vert_size vert_stride vert_offset
     _uv_data uv_stride uv_offset
     _color_data color_stride color_offset color_is_float : Z) (r : Render)
  : option Render :=
  let bufferSizeBytes := count * vert_stride in
  (* [bufferSizeBytes / 4]; the typed-array constructor truncates a
     fractional length *)
  let bufferSizeFloats := Z.quot bufferSizeBytes 4 in
  let '(posBuffer, g) := GL.fresh GL.createBuffer (gl r) in
  let g := GL.emit [GL.bindBuffer GL.ARRAY_BUFFER posBuffer] g in
  data ← float32_array_by_ptr buffer vert_data bufferSizeFloats;
  let g := GL.emit [GL.bufferData GL.ARRAY_BUFFER data GL.STREAM_DRAW] g in
  info ← programInfo r;
  let g := GL.emit (draw_calls info r posBuffer count vert_size vert_stride
                               vert_offset uv_stride uv_offset color_stride
                               color_offset color_is_float) g in
  Some {| gl := g; programInfo := programInfo r; matProj := matProj r;
          matModel := matModel r; textureMap := textureMap r;
          nextTextureHandle := nextTextureHandle r;
          currentTexture := currentTexture r;
          currentTexturePixelFormat := currentTexturePixelFormat r |}.

(** The render state when the script is loaded and the canvas context has
    been created: the initial values of the [let] declarations. *)
Definition identity_matrix : list byte :=
  let one := le_split 4 1065353216 (* 1.0f *) in
  let zero := le_split 4 0 in
  one ++ zero ++ zero ++ zero ++ zero ++ one ++ zero ++ zero ++
  zero ++ zero ++ one ++ zero ++ zero ++ zero ++ zero ++ one.

Definition initial_render (g : GL.ctx) (info : option ProgramInfo) : Render :=
  {| gl := g; programInfo := info;
     matProj := identity_matrix; matModel := identity_matrix;
     textureMap := ∅; nextTextureHandle := 1;
     currentTexture := None; currentTexturePixelFormat := 0 |}.

(** A sequence of texture operations issued by the guest. *)
Inductive TextureOp : Set :=
| Create (data_ptr width height pixel_format filter : Z)
| Destroy (handle : Z)
| Bind (handle pixel_format : Z).

(** Run the operations against a fixed memory; the result collects the
    handles returned by the [Create]s, oldest first. *)
Fixpoint run_texture_ops (buffer : list byte) (ops : list TextureOp)
    (r : Render) : option (list Z * Render) :=
  match ops with
  | [] => Some ([], r)
  | Create data_ptr width height pixel_format filter :: ops' =>
      '(handle, r) ← webgl_create_texture buffer data_ptr width height
                                          pixel_format filter r;
      '(handles, r) ← run_texture_ops buffer ops' r;
      Some (handle :: handles, r)
  | Destroy handle :: ops' =>
      run_texture_ops buffer ops' (webgl_destroy_texture handle r)
  | Bind handle pixel_format :: ops' =>
      run_texture_ops buffer ops' (webgl_set_texture handle pixel_format r)
  end.

(* ====================================================================== *)
(** * Utility functions and the remaining imports *)
(* ====================================================================== *)

(** [mem[ptr]] on a Uint8Array: the byte, or [undefined] ([None]) outside
    the array. *)
Definition Uint8Array_get (mem : list byte) (ptr : Z) : option byte :=
  if decide (0 <= ptr) then mem !! Z.to_nat ptr else None.

(** The loop of [cstrlen]: [while (mem[ptr] != 0) { len++; ptr++; }].
    [undefined != 0] is true, so the loop does not stop at the end of the
    array.  [None] when [fuel] iterations did not reach a zero byte. *)
Fixpoint cstrlen_loop (fuel : nat) (mem : list byte) (ptr len : Z)
  : option Z :=
  match fuel with
  | O => None
  | S fuel' =>
      match Uint8Array_get mem ptr with
      | Some Byte.x00 => Some len
      | _ => cstrlen_loop fuel' mem (ptr + 1) (len + 1)
      end
  end.

Definition cstrlen (fuel : nat) (mem : list byte) (ptr : Z) : option Z :=
  cstrlen_loop fuel mem ptr 0.

(** [const bytesPerPage = 65536] *)
Definition bytesPerPage : Z := 65536.

(** [Math.ceil(size / bytesPerPage)] *)
Definition byte_to_wasm_pages (size : Z) : Z :=
  Qceiling (inject_Z size / inject_Z bytesPerPage).

(** [mem.grow(delta)]: [delta] more pages of zero bytes.  A negative
    [delta] is a TypeError, and growing past [maximum] pages (the declared
    maximum of the memory, or what the engine can still allocate) is a
    RangeError. *)
Definition Memory_grow (maximum : Z) (buffer : list byte) (delta : Z)
  : option (list byte) :=
  if decide (0 <= delta /\
             Z.of_nat (length buffer) + delta * bytesPerPage
             <= maximum * bytesPerPage)
  then Some (buffer ++ replicate (Z.to_nat (delta * bytesPerPage)) Byte.x00)
  else None.

Definition js_memory_grow (maximum : Z) (new_byte_length : Z)
    (buffer : list byte) : option (list byte) :=
  Memory_grow maximum buffer (byte_to_wasm_pages new_byte_length).

(** [s.startsWith(prefix)] *)
Fixpoint startsWith (s prefix : jsstring) : bool :=
  match prefix, s with
  | [], _ => true
  | _ :: _, [] => false
  | d :: prefix', c :: s' => (c =? d)%N && startsWith s' prefix'
  end.

(** Whether the keydown and keyup listeners call [event.preventDefault()]:
    for a mapped key whose name does not start with F5 and is not F12. *)
Definition key_preventDefault (event : KeyboardEvent.t) : bool :=
  let osKey := mapKeyToOSKey event in
  negb (osKey =? OS_Key.UNKNOWN) &&
  (negb (startsWith (KeyboardEvent.key event) (js "F5")) &&
   negb (case (KeyboardEvent.key event) "F12")).

(** The codes that [mapKeyToOSKey] can return: UNKNOWN, a digit, a
    lowercase letter or one of the special keys LCONTROL..F12. *)
Definition is_key_code (k : Z) : Prop :=
  k = OS_Key.UNKNOWN \/ 48 <= k <= 57 \/ 97 <= k <= 122 \/
  OS_Key.LCONTROL <= k <= OS_Key.F12.

(** An export call that reports a count reports one between 1 and 128. *)
Definition count_in_range (c : ExportCall) : Prop :=
  match c with
  | Call_wasm_set_event_count count => 1 <= count <= 128
  | _ => True
  end.

(** [webgl_set_matrix_projection(mat)] and [webgl_set_matrix_model(mat)]:
    the 16 floats at [mat] are copied into the module variable. *)
Definition webgl_set_matrix_projection (buffer : list byte) (mat : Z)
    (r : Render) : option Render :=
  source ← float32_array_by_ptr buffer mat 16;
  Some {| gl := gl r; programInfo := programInfo r; matProj := source;
          matModel := matModel r; textureMap := textureMap r;
          nextTextureHandle := nextTextureHandle r;
          currentTexture := currentTexture r;
          currentTexturePixelFormat := currentTexturePixelFormat r |}.

Definition webgl_set_matrix_model (buffer : list byte) (mat : Z)
    (r : Render) : option Render :=
  source ← float32_array_by_ptr buffer mat 16;
  Some {| gl := gl r; programInfo := programInfo r; matProj := matProj r;
          matModel := source; textureMap := textureMap r;
          nextTextureHandle := nextTextureHandle r;
          currentTexture := currentTexture r;
          currentTexturePixelFormat := currentTexturePixelFormat r |}.

(** A call of one of the render imports by the guest. *)
Inductive RenderCall : Set :=
| Call_create_texture (data_ptr width height pixel_format filter : Z)
| Call_destroy_texture (handle : Z)
| Call_set_texture (handle pixel_format : Z)
| Call_set_matrix_projection (mat : Z)
| Call_set_matrix_model (mat : Z)
| Call_draw_vertex_buffer (count vert_data vert_size vert_stride vert_offset
                           _uv_data uv_stride uv_offset
                           _color_data color_stride color_offset
                           color_is_float : Z).

Definition render_call (buffer : list byte) (c : RenderCall) (r : Render)
  : option Render :=
  match c with
  | Call_create_texture data_ptr width height pixel_format filter =>
      snd <$> webgl_create_texture buffer data_ptr width height pixel_format
                                   filter r
  | Call_destroy_texture handle => Some (webgl_destroy_texture handle r)
  | Call_set_texture handle pixel_format =>
      Some (webgl_set_texture handle pixel_format r)
  | Call_set_matrix_projection mat => webgl_set_matrix_projection buffer mat r
  | Call_set_matrix_model mat => webgl_set_matrix_model buffer mat r
  | Call_draw_vertex_buffer count vert_data vert_size vert_stride vert_offset
                            _uv_data uv_stride uv_offset
                            _color_data color_stride color_offset
                            color_is_float =>
      webgl_draw_vertex_buffer buffer count vert_data vert_size vert_stride
                               vert_offset _uv_data uv_stride uv_offset
                               _color_data color_stride color_offset
                               color_is_float r
  end.

(** A sequence of render calls, each against the memory the guest has at
    the time of the call. *)
Fixpoint run_render (cs : list (list byte * RenderCall)) (r : Render)
  : option Render :=
  match cs with
  | [] => Some r
  | (buffer, c) :: cs' => r' ← render_call buffer c r; run_render cs' r'
  end.

(** The textures that the log creates and deletes, in order. *)
Definition created_textures (log : list GL.call) : list GL.object :=
  omap (fun c => match c with GL.createTexture t => Some t | _ => None end)
       log.

Definition deleted_textures (log : list GL.call) : list GL.object :=
  omap (fun c => match c with GL.deleteTexture t => Some t | _ => None end)
       log.

(** The texture table agrees with the context: handles are positive and
    below the next handle, they stand for distinct textures that the
    context created and did not delete, and no texture was deleted twice
    or without having been created. *)
Definition render_ok (r : Render) : Prop :=
  1 <= nextTextureHandle r
  /\ (forall h t, textureMap r !! h = Some t ->
                  1 <= h < nextTextureHandle r
                  /\ t ∈ created_textures (GL.log (gl r))
                  /\ t ∉ deleted_textures (GL.log (gl r)))
  /\ (forall h1 h2 t, textureMap r !! h1 = Some t ->
                      textureMap r !! h2 = Some t -> h1 = h2)
  /\ (forall t, t ∈ created_textures (GL.log (gl r)) ->
                (t < GL.next_object (gl r))%nat)
  /\ NoDup (deleted_textures (GL.log (gl r)))
  /\ (forall t, t ∈ deleted_textures (GL.log (gl r)) ->
                t ∈ created_textures (GL.log (gl r))).

(* ====================================================================== *)
(** * A concrete guest and page, to run the model on *)
(* ====================================================================== *)

Module Demo.
(** A guest whose only private state is the event count it was last
    told, with its event buffer at address 16 of a 4 KiB memory. *)
Definition exports : Exports Z :=
  {| wasm_get_event_buffer := fun inst => Some (16, inst);
     wasm_set_event_count :=
       fun count inst => Some {| memory := memory inst; env := count |};
     wasm_frame := Some (fun inst => Some inst) |}.

Definition page (queue : list Event.t) (count : Z) : Page Z :=
  {| eventQueue := queue; mousePos := (0, 0);
     wasm := {| memory := repeat Byte.x00 4096; env := count |};
     calls := [] |}.

(** The same guest with its event buffer at another address. *)
Definition exports_at (ptr : Z) : Exports Z :=
  {| wasm_get_event_buffer := fun inst => Some (ptr, inst);
     wasm_set_event_count :=
       fun count inst => Some {| memory := memory inst; env := count |};
     wasm_frame := Some (fun inst => Some inst) |}.

(** A guest that does not export [wasm_frame]. *)
Definition exports_without_frame : Exports Z :=
  {| wasm_get_event_buffer := fun inst => Some (16, inst);
     wasm_set_event_count :=
       fun count inst => Some {| memory := memory inst; env := count |};
     wasm_frame := None |}.

(** [n] mouse-move records with distinct coordinates. *)
Definition moves (n : nat) : list Event.t :=
  (fun k => Event.mk OS_Window_Event_Type.MOUSE_MOVE
                     (Z.of_nat k) (- Z.of_nat k) 0 0) <$> seq 0 n.

(** The page after a tick that found two such records and a guest that
    had been told the count 7 before. *)
Definition after_tick : Page Z :=
  {| eventQueue := []; mousePos := (0, 0);
     wasm := {| memory := splice (repeat Byte.x00 4096) 16
                                 (flat_map event_bytes (moves 2));
                env := 2 |};
     calls := [Call_wasm_get_event_buffer; Call_wasm_set_event_count 2;
               Call_wasm_frame] |}.

(** A decoder for ASCII paths. *)
Definition decode (bytes : list byte) : jsstring := Byte.to_N <$> bytes.

(** A memory holding the path "a.bin" at address 0. *)
Definition path_memory : list byte :=
  [Byte.x61; Byte.x2e; Byte.x62; Byte.x69; Byte.x6e; Byte.x00; Byte.x00;
   Byte.x00].

(** A memory holding the path "public/font.ttf" at address 0, followed
    by free space. *)
Definition font_path_memory : list byte :=
  [Byte.x70; Byte.x75; Byte.x62; Byte.x6c; Byte.x69; Byte.x63; Byte.x2f;
   Byte.x66; Byte.x6f; Byte.x6e; Byte.x74; Byte.x2e; Byte.x74; Byte.x74;
   Byte.x66; Byte.x00] ++ repeat Byte.xaa 16.

(** A store with the one preloaded file of the page. *)
Definition store : gmap (list N) (list byte) :=
  {[ js "public/font.ttf" := [Byte.x01; Byte.x02; Byte.x03] ]}.

Definition info : ProgramInfo :=
  {| program := 0%nat; attrib_vertexPosition := 0; attrib_color := 1;
     attrib_uv := 2; uniform_projectionMatrix := 0;
     uniform_modelViewMatrix := 1; uniform_texture := 2;
     uniform_useTexture := 3; uniform_isText := 4 |}.

Definition render : Render :=
  initial_render {| GL.next_object := 1%nat; GL.log := [] |} (Some info).

(** Three vertices of 20 bytes each: two floats of position, two floats
    of UV and four bytes of colour. *)
Definition vertex_memory : list byte := repeat Byte.x00 64.

(** A guest that creates two textures, draws with the first, destroys it
    twice and draws again. *)
Definition render_calls : list (list byte * RenderCall) :=
  [(vertex_memory, Call_create_texture 0 8 8 3 0);
   (vertex_memory, Call_create_texture 0 4 4 0 1);
   (vertex_memory, Call_set_texture 1 3);
   (vertex_memory, Call_draw_vertex_buffer 3 0 2 20 0 0 20 8 0 20 16 1);
   (vertex_memory, Call_destroy_texture 1);
   (vertex_memory, Call_destroy_texture 1);
   (vertex_memory, Call_draw_vertex_buffer 3 0 2 20 0 0 20 8 0 20 16 1)].

Definition after_render : Render :=
  default render (run_render render_calls render).

(** What a guest may do after it created a first texture, without
    destroying it: create a second one, bind and destroy that, set a
    matrix and draw. *)
Definition later_calls : list (list byte * RenderCall) :=
  [(vertex_memory, Call_create_texture 0 4 4 0 1);
   (vertex_memory, Call_set_texture 2 0);
   (vertex_memory, Call_destroy_texture 2);
   (vertex_memory, Call_set_matrix_model 0);
   (vertex_memory, Call_draw_vertex_buffer 3 0 2 20 0 0 20 8 0 20 16 1)].

(** The render state after the guest created one 8x8 ALPHA texture. *)
Definition one_texture : Render :=
  default render
    (snd <$> webgl_create_texture vertex_memory 0 8 8 3 0 render).

(** A memory with 64 bytes of matrix data at address 16, and the render
    state after they were set as the projection and after a draw that read
    its vertices from another memory. *)
Definition matrix_memory : list byte :=
  repeat Byte.x00 16 ++ repeat Byte.x3f 64 ++ repeat Byte.x00 16.

Definition after_later : Render :=
  default render (run_render later_calls one_texture).

Definition after_matrix : Render :=
  default render (webgl_set_matrix_projection matrix_memory 16 render).

Definition after_matrix_draw : Render :=
  default render
    (webgl_draw_vertex_buffer vertex_memory 3 0 2 20 0 0 20 8 0 20 16 1
                              after_matrix).
End Demo.

(* ====================================================================== *)
(** * Properties of the memory accesses *)
(* ====================================================================== *)

Lemma ToInt32_range v : is_int32 (ToInt32 v).
Proof.
  unfold is_int32, ToInt32.
  pose proof (Z.mod_pos_bound (v + 2 ^ 31) (2 ^ 32)). lia.
Qed.

Lemma ToInt32_small v : is_int32 v -> ToInt32 v = v.
Proof. unfold is_int32, ToInt32. intros H. rewrite Z.mod_small; lia. Qed.

Lemma ToInt32_mod v : ToInt32 (v mod 2 ^ 32) = ToInt32 v.
Proof. unfold ToInt32. f_equal. apply Zplus_mod_idemp_l. Qed.

Lemma ToInt32_idemp v : ToInt32 (ToInt32 v) = ToInt32 v.
Proof. apply ToInt32_small, ToInt32_range. Qed.

Lemma splice_nil view off : splice view off [] = view.
Proof. unfold splice. simpl. rewrite Nat.add_0_r. apply take_drop. Qed.

Lemma splice_length view off bs :
  (off + length bs <= length view)%nat ->
  length (splice view off bs) = length view.
Proof.
  intros H. unfold splice. rewrite !length_app, length_take, length_drop. lia.
Qed.

(** Two writes, one right after the other, are one write. *)
Lemma splice_adjacent view off a b :
  (off + length a + length b <= length view)%nat ->
  splice (splice view off a) (off + length a) b = splice view off (a ++ b).
Proof.
  intros H. unfold splice.
  rewrite take_app_ge by (rewrite length_take; lia).
  rewrite length_take, Nat.min_l by lia.
  replace (off + length a - off)%nat with (length a) by lia.
  rewrite take_app_length.
  rewrite drop_app_ge by (rewrite length_take; lia).
  rewrite length_take, Nat.min_l by lia.
  rewrite drop_app_ge by lia.
  rewrite drop_drop, length_app, <- !app_assoc.
  do 3 f_equal. f_equal. lia.
Qed.

(** Reading back a part of what was written. *)
Lemma splice_read view off pre bs post :
  (off + length (pre ++ bs ++ post) <= length view)%nat ->
  take (length bs)
       (drop (off + length pre) (splice view off (pre ++ bs ++ post)))
  = bs.
Proof.
  intros H. unfold splice. rewrite !length_app in H.
  rewrite drop_app_ge by (rewrite length_take; lia).
  rewrite length_take, Nat.min_l by lia.
  replace (off + length pre - off)%nat with (length pre) by lia.
  rewrite <- !app_assoc, drop_app_length, take_app_length. reflexivity.
Qed.

(** A write leaves the bytes before and after its range as they were. *)
Lemma splice_frame view off bs :
  (off + length bs <= length view)%nat ->
  take off (splice view off bs) = take off view /\
  drop (off + length bs) (splice view off bs) = drop (off + length bs) view.
Proof.
  intros H. unfold splice. split.
  - rewrite take_app_le by (rewrite length_take; lia).
    rewrite take_take. f_equal. lia.
  - rewrite drop_app_ge by (rewrite length_take; lia).
    rewrite length_take, Nat.min_l by lia.
    replace (off + length bs - off)%nat with (length bs) by lia.
    apply drop_app_length.
Qed.

Lemma setInt32_after view off pre o v :
  o = Z.of_nat (off + length pre) ->
  (off + length pre + 4 <= length view)%nat ->
  setInt32 (splice view off pre) o v
  = Some (splice view off (pre ++ le_split 4 (ToInt32 v))).
Proof.
  intros -> H. unfold setInt32.
  rewrite decide_True.
  - rewrite Nat2Z.id, splice_adjacent by (rewrite length_le_split; lia).
    reflexivity.
  - unfold in_bounds. rewrite splice_length by lia. lia.
Qed.

Lemma getInt32_splice view off pre v post o :
  o = Z.of_nat (off + length pre) ->
  (off + length pre + 4 + length post <= length view)%nat ->
  getInt32 (splice view off (pre ++ le_split 4 (ToInt32 v) ++ post)) o
  = Some (ToInt32 v).
Proof.
  intros -> H. unfold getInt32, Uint8Array.
  assert (Hlen : (off + length (pre ++ le_split 4 (ToInt32 v) ++ post)
                  <= length view)%nat)
    by (rewrite !length_app, length_le_split; lia).
  rewrite decide_True.
  - cbn [mbind option_bind]. rewrite Nat2Z.id.
    change (Z.to_nat 4) with (length (le_split 4 (ToInt32 v))).
    rewrite splice_read by exact Hlen.
    rewrite le_combine_split.
    change (2 ^ (Z.of_nat 4 * 8)) with (2 ^ 32).
    rewrite ToInt32_mod, ToInt32_idemp. reflexivity.
  - unfold in_bounds. rewrite splice_length by exact Hlen. lia.
Qed.

(* ====================================================================== *)
(** * The event buffer: what the flush writes and what the guest reads *)
(* ====================================================================== *)

Lemma length_event_bytes e : length (event_bytes e) = 20%nat.
Proof.
  unfold event_bytes. rewrite !length_app, !length_le_split. reflexivity.
Qed.

Lemma length_flat_map_event_bytes es :
  length (flat_map event_bytes es) = (20 * length es)%nat.
Proof.
  induction es as [|e es IH]; [reflexivity|].
  cbn [flat_map]. rewrite length_app, length_event_bytes, IH. simpl. lia.
Qed.

Lemma Event_wrap_int32 e : Event.int32 e -> Event.wrap e = e.
Proof.
  destruct e as [t x y p k]. unfold Event.int32, Event.wrap. cbn.
  intros (Ht & Hx & Hy & Hp & Hk).
  rewrite !ToInt32_small by assumption. reflexivity.
Qed.

Lemma Event_wrap_all es : Forall Event.int32 es -> Event.wrap <$> es = es.
Proof.
  induction 1 as [|e es He _ IH]; [reflexivity|].
  cbn. rewrite Event_wrap_int32, IH by assumption. reflexivity.
Qed.

(** Side conditions on the lengths of the pieces of a record. *)
Ltac length_side :=
  rewrite ?length_app, ?length_le_split; cbn [length]; lia.

(** One loop iteration writes the 20 bytes of the record at [offset]. *)
Lemma write_event_splice view off e :
  (off + 20 <= length view)%nat ->
  write_event view (Z.of_nat off) e = Some (splice view off (event_bytes e)).
Proof.
  intros H. unfold write_event, event_bytes.
  rewrite <- (splice_nil view off) at 1.
  rewrite (setInt32_after view off []) by length_side.
  cbn [mbind option_bind app].
  rewrite (setInt32_after view off) by length_side.
  cbn [mbind option_bind].
  rewrite (setInt32_after view off) by length_side.
  cbn [mbind option_bind].
  rewrite (setInt32_after view off) by length_side.
  cbn [mbind option_bind].
  rewrite (setInt32_after view off) by length_side.
  rewrite <- !app_assoc. reflexivity.
Qed.

(** The loop writes the records [i], [i+1], ... of the queue as one
    contiguous block. *)
Lemma write_loop_splice remaining : forall eventQueue i view off,
  (i + remaining <= length eventQueue)%nat ->
  (off + 20 * remaining <= length view)%nat ->
  write_loop remaining eventQueue i view (Z.of_nat off)
  = Some (splice view off
                 (flat_map event_bytes (take remaining (drop i eventQueue)))).
Proof.
  induction remaining as [|k IH]; intros q i view off Hq Hv.
  - cbn. rewrite splice_nil. reflexivity.
  - cbn [write_loop].
    destruct (lookup_lt_is_Some_2 q i) as [e He]; [lia|].
    rewrite He. cbn [mbind option_bind].
    rewrite write_event_splice by lia. cbn [mbind option_bind].
    replace (Z.of_nat off + bytesPerEvent) with (Z.of_nat (off + 20))
      by (unfold bytesPerEvent; lia).
    rewrite IH by (rewrite ?splice_length; rewrite ?length_event_bytes; lia).
    rewrite (drop_S q e i He). cbn [take flat_map].
    rewrite <- (length_event_bytes e) at 1.
    rewrite splice_adjacent; [reflexivity|].
    rewrite length_event_bytes, length_flat_map_event_bytes, length_take,
      length_drop. lia.
Qed.

Lemma getInt32_within view off bs pre v post o :
  bs = pre ++ le_split 4 (ToInt32 v) ++ post ->
  o = Z.of_nat (off + length pre) ->
  (off + length pre + 4 + length post <= length view)%nat ->
  getInt32 (splice view off bs) o = Some (ToInt32 v).
Proof. intros -> Ho H. apply getInt32_splice; assumption. Qed.

(** The guest's reader finds a record where the host wrote it. *)
Lemma read_event_splice view off e post :
  (off + 20 + length post <= length view)%nat ->
  read_event (splice view off (event_bytes e ++ post)) (Z.of_nat off)
  = Some (Event.wrap e).
Proof.
  intros H. unfold read_event, event_bytes.
  set (t := le_split 4 (ToInt32 (Event.type e))).
  set (x := le_split 4 (ToInt32 (Event.x e))).
  set (y := le_split 4 (ToInt32 (Event.y e))).
  set (p := le_split 4 (ToInt32 (Event.pressed e))).
  set (k := le_split 4 (ToInt32 (Event.key e))).
  rewrite (getInt32_within view off _ [] (Event.type e)
             (x ++ y ++ p ++ k ++ post)
             (Z.of_nat off + 0));
    [|subst t x y p k; rewrite <- ?app_assoc; reflexivity
     |subst t x y p k; length_side ..].
  cbn [mbind option_bind].
  rewrite (getInt32_within view off _ t (Event.x e) (y ++ p ++ k ++ post)
             (Z.of_nat off + 4));
    [|subst t x y p k; rewrite <- ?app_assoc; reflexivity
     |subst t x y p k; length_side ..].
  cbn [mbind option_bind].
  rewrite (getInt32_within view off _ (t ++ x) (Event.y e) (p ++ k ++ post)
             (Z.of_nat off + 8));
    [|subst t x y p k; rewrite <- ?app_assoc; reflexivity
     |subst t x y p k; length_side ..].
  cbn [mbind option_bind].
  rewrite (getInt32_within view off _ (t ++ x ++ y) (Event.pressed e)
             (k ++ post)
             (Z.of_nat off + 12));
    [|subst t x y p k; rewrite <- ?app_assoc; reflexivity
     |subst t x y p k; length_side ..].
  cbn [mbind option_bind].
  rewrite (getInt32_within view off _ (t ++ x ++ y ++ p) (Event.key e) post
             (Z.of_nat off + 16));
    [|subst t x y p k; rewrite <- ?app_assoc; reflexivity
     |subst t x y p k; length_side ..].
  reflexivity.
Qed.

Lemma read_events_splice es : forall view off post,
  (off + 20 * length es + length post <= length view)%nat ->
  read_events (length es)
              (splice view off (flat_map event_bytes es ++ post)) (Z.of_nat off)
  = Some (Event.wrap <$> es).
Proof.
  induction es as [|e es IH]; intros view off post H; [reflexivity|].
  cbn [length read_events flat_map]. cbn [length] in H.
  rewrite <- app_assoc.
  rewrite read_event_splice
    by (rewrite length_app, length_flat_map_event_bytes; lia).
  cbn [mbind option_bind].
  replace (Z.of_nat off + bytesPerEvent) with (Z.of_nat (off + 20))
    by (unfold bytesPerEvent; lia).
  rewrite <- (splice_adjacent view off (event_bytes e))
    by (rewrite length_event_bytes, length_app, length_flat_map_event_bytes;
        lia).
  rewrite length_event_bytes.
  rewrite IH by (rewrite splice_length; rewrite ?length_event_bytes; lia).
  reflexivity.
Qed.

Section Flush.
Context {Env : Type} (exports : Exports Env).

(** What a flush of a non-empty queue does: it asks the guest for the
    buffer, writes the first [min (length queue) 128] records there and
    reports that count. *)
Lemma writeEventsToWASM_flush (p : Page Env) ptr inst :
  eventQueue p <> [] ->
  wasm_get_event_buffer exports (wasm p) = Some (ptr, inst) ->
  in_bounds (memory inst) ptr
            (bytesPerEvent * Z.of_nat (Nat.min (length (eventQueue p)) 128)) ->
  writeEventsToWASM exports p =
    inst' ← wasm_set_event_count exports
              (Z.of_nat (Nat.min (length (eventQueue p)) 128))
              {| memory := splice (memory inst) (Z.to_nat ptr)
                             (flat_map event_bytes
                                (take (Nat.min (length (eventQueue p)) 128)
                                      (eventQueue p)));
                 env := env inst |};
    Some {| eventQueue := eventQueue p; mousePos := mousePos p;
            wasm := inst';
            calls := calls p ++
              [Call_wasm_get_event_buffer;
               Call_wasm_set_event_count
                 (Z.of_nat (Nat.min (length (eventQueue p)) 128))] |}.
Proof.
  intros Hne Hget [Hptr [_ Hfit]]. unfold writeEventsToWASM.
  destruct (eventQueue p) as [|e q] eqn:Hq; [congruence|].
  rewrite <- Hq in *. clear Hne.
  assert (Hlen : (Z.of_nat (length (eventQueue p)) =? 0) = false)
    by (apply Z.eqb_neq; rewrite Hq; cbn [length]; lia).
  rewrite Hlen, Hget. cbn [mbind option_bind].
  change 128 with (Z.of_nat 128). rewrite <- Nat2Z.inj_min, Nat2Z.id.
  set (n := Nat.min (length (eventQueue p)) 128) in *.
  rewrite <- (Z2Nat.id ptr) at 1 by lia.
  unfold bytesPerEvent in Hfit.
  rewrite write_loop_splice by (cbn [Nat.add]; lia).
  rewrite drop_0. reflexivity.
Qed.


(** Whatever a tick did, the queue it leaves is empty. *)
Lemma gameLoop_clears (p p' : Page Env) :
  gameLoop exports p = Some p' -> eventQueue p' = [].
Proof.
  unfold gameLoop. intros H.
  apply bind_Some in H. destruct H as (p1 & _ & H).
  injection H as <-. reflexivity.
Qed.

(** A flush leaves the queue itself as it was. *)
Lemma writeEventsToWASM_queue (p p' : Page Env) :
  writeEventsToWASM exports p = Some p' -> eventQueue p' = eventQueue p.
Proof.
  unfold writeEventsToWASM. intros H.
  destruct (Z.of_nat (length (eventQueue p)) =? 0); [congruence|].
  apply bind_Some in H. destruct H as ([ptr inst] & _ & H).
  apply bind_Some in H. destruct H as (view & _ & H).
  apply bind_Some in H. destruct H as (inst' & _ & H).
  injection H as <-. reflexivity.
Qed.
End Flush.

(** The layout of one record: five little-endian 32-bit words. *)
Example event_bytes_layout :
  event_bytes
    (Event.mk OS_Window_Event_Type.MOUSE_BUTTON 1 (-1) 1 OS_Key.LSHIFT)
  = [Byte.x04; Byte.x00; Byte.x00; Byte.x00;
     Byte.x01; Byte.x00; Byte.x00; Byte.x00;
     Byte.xff; Byte.xff; Byte.xff; Byte.xff;
     Byte.x01; Byte.x00; Byte.x00; Byte.x00;
     Byte.x02; Byte.x01; Byte.x00; Byte.x00].
Proof. reflexivity. Qed.

(** C1.  When at most 128 records were captured in a frame, each with
    fields that fit a signed 32-bit word, and the guest's buffer lies in its
    memory, the flush leaves the records of the queue, in queue order, as
    consecutive 20-byte little-endian blocks from the buffer address on;
    reading that many records back from the address gives the queue itself.
    A non-empty flush reports the count [N] through [wasm_set_event_count];
    on an empty queue the function returns before any call. *)
Theorem flush_roundtrip {Env : Type} (exports : Exports Env) (p : Page Env)
    (ptr : Z) (inst : Instance Env) :
  (length (eventQueue p) <= 128)%nat ->
  Forall Event.int32 (eventQueue p) ->
  wasm_get_event_buffer exports (wasm p) = Some (ptr, inst) ->
  in_bounds (memory inst) ptr
            (bytesPerEvent * Z.of_nat (length (eventQueue p))) ->
  read_events (length (eventQueue p))
              (splice (memory inst) (Z.to_nat ptr)
                      (flat_map event_bytes (eventQueue p))) ptr
  = Some (eventQueue p)
  /\ writeEventsToWASM exports p =
     if decide (eventQueue p = []) then Some p
     else
       inst' ← wasm_set_event_count exports (Z.of_nat (length (eventQueue p)))
                 {| memory := splice (memory inst) (Z.to_nat ptr)
                                     (flat_map event_bytes (eventQueue p));
                    env := env inst |};
       Some {| eventQueue := eventQueue p; mousePos := mousePos p;
               wasm := inst';
               calls := calls p ++
                 [Call_wasm_get_event_buffer;
                  Call_wasm_set_event_count
                    (Z.of_nat (length (eventQueue p)))] |}.
Proof.
  intros Hcap Hwf Hget Hfit. split.
  - destruct Hfit as (Hptr & _ & Hfit). unfold bytesPerEvent in Hfit.
    rewrite <- (app_nil_r (flat_map event_bytes (eventQueue p))).
    rewrite <- (Z2Nat.id ptr) at 2 by lia.
    rewrite read_events_splice by (cbn [length]; lia).
    rewrite Event_wrap_all by assumption. reflexivity.
  - destruct (decide (eventQueue p = [])) as [Hnil|Hne].
    + unfold writeEventsToWASM. rewrite Hnil. reflexivity.
    + rewrite (writeEventsToWASM_flush exports p ptr inst Hne Hget);
        rewrite Nat.min_l by lia; [|assumption].
      rewrite firstn_all. reflexivity.
Qed.

Lemma flush_roundtrip_witness :
  read_events 3 (splice (repeat Byte.x00 4096) 16
                        (flat_map event_bytes (Demo.moves 3))) 16
  = Some (Demo.moves 3)
  /\ calls <$> writeEventsToWASM Demo.exports (Demo.page (Demo.moves 3) 0)
     = Some [Call_wasm_get_event_buffer; Call_wasm_set_event_count 3].
Proof.
  destruct (flush_roundtrip Demo.exports (Demo.page (Demo.moves 3) 0) 16
              (wasm (Demo.page (Demo.moves 3) 0))) as [Hread Hwrite].
  - vm_compute. lia.
  - apply (bool_decide_unpack _). vm_compute. exact I.
  - reflexivity.
  - apply (bool_decide_unpack _). vm_compute. exact I.
  - split; [exact Hread|]. rewrite Hwrite. reflexivity.
Defined.

(** C2.  When more than 128 records were captured in a frame, the flush
    writes the first 128 of them, in queue order, and nothing past them;
    [wasm_set_event_count] is called with 128; the tick then clears the
    queue, so the records from the 129th on are never delivered. *)
Theorem flush_truncates {Env : Type} (exports : Exports Env) (p : Page Env)
    (ptr : Z) (inst : Instance Env) :
  (128 < length (eventQueue p))%nat ->
  Forall Event.int32 (eventQueue p) ->
  wasm_get_event_buffer exports (wasm p) = Some (ptr, inst) ->
  in_bounds (memory inst) ptr (bytesPerEvent * 128) ->
  read_events 128
              (splice (memory inst) (Z.to_nat ptr)
                      (flat_map event_bytes (take 128 (eventQueue p)))) ptr
  = Some (take 128 (eventQueue p))
  /\ drop (Z.to_nat ptr + 2560)
          (splice (memory inst) (Z.to_nat ptr)
                  (flat_map event_bytes (take 128 (eventQueue p))))
     = drop (Z.to_nat ptr + 2560) (memory inst)
  /\ writeEventsToWASM exports p =
     (inst' ← wasm_set_event_count exports 128
                {| memory := splice (memory inst) (Z.to_nat ptr)
                               (flat_map event_bytes (take 128 (eventQueue p)));
                   env := env inst |};
      Some {| eventQueue := eventQueue p; mousePos := mousePos p;
              wasm := inst';
              calls := calls p ++ [Call_wasm_get_event_buffer;
                                   Call_wasm_set_event_count 128] |})
  /\ (forall p', gameLoop exports p = Some p' -> eventQueue p' = []).
Proof.
  intros Hcap Hwf Hget Hfit.
  assert (Hlen : length (take 128 (eventQueue p)) = 128%nat)
    by (rewrite length_take; lia).
  assert (Hbytes : length (flat_map event_bytes (take 128 (eventQueue p)))
                   = 2560%nat)
    by (rewrite length_flat_map_event_bytes, Hlen; reflexivity).
  assert (Hne : eventQueue p <> [])
    by (intros E; rewrite E in Hcap; cbn in Hcap; lia).
  pose proof Hfit as (Hptr & _ & Hfit'). unfold bytesPerEvent in Hfit'.
  repeat split.
  - rewrite <- (app_nil_r (flat_map event_bytes _)).
    rewrite <- (Z2Nat.id ptr) at 2 by lia.
    rewrite <- Hlen at 1.
    rewrite read_events_splice by (rewrite Hlen; cbn [length]; lia).
    rewrite Event_wrap_all by (apply Forall_take; assumption). reflexivity.
  - destruct (splice_frame (memory inst) (Z.to_nat ptr)
                (flat_map event_bytes (take 128 (eventQueue p)))) as [_ Hd];
      [rewrite Hbytes; lia|].
    rewrite Hbytes in Hd. exact Hd.
  - rewrite (writeEventsToWASM_flush exports p ptr inst Hne Hget);
      rewrite Nat.min_r by lia; [reflexivity|assumption].
  - apply gameLoop_clears.
Qed.

Lemma flush_truncates_witness :
  read_events 128 (splice (repeat Byte.x00 4096) 16
                          (flat_map event_bytes (take 128 (Demo.moves 130)))) 16
  = Some (Demo.moves 128)
  /\ calls <$> writeEventsToWASM Demo.exports (Demo.page (Demo.moves 130) 0)
     = Some [Call_wasm_get_event_buffer; Call_wasm_set_event_count 128]
  /\ eventQueue <$> gameLoop Demo.exports (Demo.page (Demo.moves 130) 0)
     = Some [].
Proof.
  destruct (flush_truncates Demo.exports (Demo.page (Demo.moves 130) 0) 16
              (wasm (Demo.page (Demo.moves 130) 0)))
    as (Hread & _ & Hwrite & Hclear).
  - vm_compute. lia.
  - apply (bool_decide_unpack _). vm_compute. exact I.
  - reflexivity.
  - apply (bool_decide_unpack _). vm_compute. exact I.
  - split; [exact Hread|]. split; [rewrite Hwrite; reflexivity|].
    vm_compute. reflexivity.
Defined.

(* ====================================================================== *)
(** * The frame loop *)
(* ====================================================================== *)

Section FrameLoop.
Context {Env : Type} (exports : Exports Env).

Lemma run_app (p : Page Env) (a b : list Input) :
  run exports p (a ++ b) = p' ← run exports p a; run exports p' b.
Proof.
  revert p. induction a as [|i a IH]; intros p; [reflexivity|].
  cbn [app run]. destruct (step exports p i) as [p1|]; [|reflexivity].
  cbn [mbind option_bind]. apply IH.
Qed.

(** A listener always returns, and what it appends to the queue does not
    depend on the page it runs in. *)
Lemma step_listener (i : Input) :
  is_tick i = false ->
  exists es, forall p : Page Env,
    exists p', step exports p i = Some p' /\
               eventQueue p' = eventQueue p ++ es.
Proof.
  destruct i as [ev|ev|rect ev|rect ev|rect ev|ev|w h|]; intros Hi;
    try discriminate Hi; cbn [step].
  - unfold on_keydown.
    destruct (negb (mapKeyToOSKey ev =? OS_Key.UNKNOWN)).
    + eexists. intros p. eexists. split; [reflexivity|]. reflexivity.
    + exists []. intros p. exists p. rewrite app_nil_r. auto.
  - unfold on_keyup.
    destruct (negb (mapKeyToOSKey ev =? OS_Key.UNKNOWN)).
    + eexists. intros p. eexists. split; [reflexivity|]. reflexivity.
    + exists []. intros p. exists p. rewrite app_nil_r. auto.
  - eexists. intros p. eexists. split; [reflexivity|]. reflexivity.
  - eexists. intros p. eexists. split; [reflexivity|]. reflexivity.
  - eexists. intros p. eexists. split; [reflexivity|]. reflexivity.
  - eexists. intros p. eexists. split; [reflexivity|]. reflexivity.
  - eexists. intros p. eexists. split; [reflexivity|]. reflexivity.
Qed.

Lemma run_listeners (inputs : list Input) :
  forallb (fun i => negb (is_tick i)) inputs = true ->
  exists es, forall p : Page Env,
    exists p', run exports p inputs = Some p' /\
               eventQueue p' = eventQueue p ++ es.
Proof.
  induction inputs as [|i inputs IH]; intros H.
  - exists []. intros p. exists p. rewrite app_nil_r. auto.
  - cbn [forallb] in H. apply andb_prop in H. destruct H as [Hi H].
    apply negb_true_iff in Hi.
    destruct (step_listener i Hi) as [es1 H1].
    destruct (IH H) as [es2 H2].
    exists (es1 ++ es2). intros p.
    destruct (H1 p) as (p1 & Hs & Hq1).
    destruct (H2 p1) as (p2 & Hr & Hq2).
    exists p2. cbn [run]. rewrite Hs. cbn [mbind option_bind].
    split; [exact Hr|]. rewrite Hq2, Hq1, app_assoc. reflexivity.
Qed.

(** A tick returns whenever the guest does not trap and its buffer holds
    the records to write. *)
Lemma gameLoop_returns (p : Page Env) ptr inst frame :
  wasm_frame exports = Some frame ->
  wasm_get_event_buffer exports (wasm p) = Some (ptr, inst) ->
  in_bounds (memory inst) ptr
            (bytesPerEvent * Z.of_nat (Nat.min (length (eventQueue p)) 128)) ->
  (forall count i, is_Some (wasm_set_event_count exports count i)) ->
  (forall i, is_Some (frame i)) ->
  is_Some (gameLoop exports p).
Proof.
  intros Hframe Hget Hfit Hset Hrun. unfold gameLoop. rewrite Hframe.
  destruct (decide (eventQueue p = [])) as [Hq|Hq].
  - destruct (Hrun (wasm p)) as [i Hi]. rewrite Hq. cbn.
    change (0 <? Z.of_nat 0) with false. cbn. rewrite Hi. cbn. eauto.
  - assert (Hpos : (0 <? Z.of_nat (length (eventQueue p))) = true).
    { apply Z.ltb_lt. destruct (eventQueue p); [congruence|].
      cbn [length]. lia. }
    rewrite Hpos.
    rewrite (writeEventsToWASM_flush exports p ptr inst Hq Hget Hfit).
    destruct (Hset (Z.of_nat (Nat.min (length (eventQueue p)) 128))
                   {| memory := splice (memory inst) (Z.to_nat ptr)
                        (flat_map event_bytes
                           (take (Nat.min (length (eventQueue p)) 128)
                                 (eventQueue p)));
                      env := env inst |}) as [i1 Hi1].
    rewrite Hi1. cbn [mbind option_bind wasm].
    destruct (Hrun i1) as [i2 Hi2]. rewrite Hi2. cbn. eauto.
Qed.
End FrameLoop.

(** C3.  A tick of the game loop that returns leaves the event queue empty,
    whether or not it flushed and whether or not the guest has a frame
    function; so the queue that the next tick finds holds exactly the
    records captured since, none of an earlier frame: it is the queue that
    the same DOM events build from an empty one. *)
Theorem queue_empty_after_tick {Env : Type} (exports : Exports Env) :
  (forall p p' : Page Env, gameLoop exports p = Some p' -> eventQueue p' = [])
  /\ (forall (p p' p0 : Page Env) (before since : list Input),
        forallb (fun i => negb (is_tick i)) since = true ->
        run exports p (before ++ AnimationFrame :: since) = Some p' ->
        eventQueue p0 = [] ->
        eventQueue <$> run exports p0 since = Some (eventQueue p')).
Proof.
  split; [apply gameLoop_clears|].
  intros p p' p0 before since Hsince Hrun Hp0.
  rewrite run_app in Hrun.
  apply bind_Some in Hrun. destruct Hrun as (p1 & _ & Hrun).
  cbn [run step] in Hrun.
  apply bind_Some in Hrun. destruct Hrun as (p2 & Htick & Hrun).
  apply gameLoop_clears in Htick.
  destruct (run_listeners exports since Hsince) as [es Hes].
  destruct (Hes p2) as (q2 & Hq2 & Heq2).
  destruct (Hes p0) as (q0 & Hq0 & Heq0).
  rewrite Hrun in Hq2. injection Hq2 as <-.
  rewrite Hq0. cbn. rewrite Heq0, Heq2, Hp0, Htick. reflexivity.
Qed.

Lemma queue_empty_after_tick_witness :
  gameLoop Demo.exports (Demo.page (Demo.moves 2) 7) = Some Demo.after_tick
  /\ eventQueue Demo.after_tick = [].
Proof.
  assert (H : gameLoop Demo.exports (Demo.page (Demo.moves 2) 7)
              = Some Demo.after_tick) by (vm_compute; reflexivity).
  split; [exact H|].
  exact (proj1 (queue_empty_after_tick Demo.exports) _ _ H).
Defined.

(** C10.  On a tick that finds the queue empty the host makes no call of
    [wasm_get_event_buffer] or [wasm_set_event_count] and writes nothing:
    the guest's frame function runs on the instance as the previous tick
    left it, its memory and the count it was last told included. *)
Theorem idle_tick_leaves_count {Env : Type} (exports : Exports Env)
    (p : Page Env) :
  eventQueue p = [] ->
  writeEventsToWASM exports p = Some p
  /\ gameLoop exports p =
     match wasm_frame exports with
     | Some frame =>
         inst ← frame (wasm p);
         Some {| eventQueue := []; mousePos := mousePos p; wasm := inst;
                 calls := calls p ++ [Call_wasm_frame] |}
     | None => Some p
     end.
Proof.
  intros Hq. destruct p as [q m w c]. cbn in Hq. subst q.
  split; [reflexivity|].
  unfold gameLoop. cbn [eventQueue length].
  change (0 <? Z.of_nat 0) with false.
  destruct (wasm_frame exports) as [frame|]; [|reflexivity].
  cbn. destruct (frame w); reflexivity.
Qed.

Lemma idle_tick_leaves_count_witness :
  gameLoop Demo.exports (Demo.page [] 7)
  = Some {| eventQueue := []; mousePos := (0, 0);
            wasm := {| memory := repeat Byte.x00 4096; env := 7 |};
            calls := [Call_wasm_frame] |}.
Proof.
  exact (proj2 (idle_tick_leaves_count Demo.exports (Demo.page [] 7) eq_refl)).
Defined.

(* ====================================================================== *)
(** * The listeners *)
(* ====================================================================== *)

(** The key mapping on a few keys. *)
Example mapKeyToOSKey_samples :
  mapKeyToOSKey (KeyboardEvent.mk (js "a") (js "KeyA") 0) = 97
  /\ mapKeyToOSKey (KeyboardEvent.mk (js "Q") (js "KeyQ") 0) = 113
  /\ mapKeyToOSKey (KeyboardEvent.mk (js "7") (js "Digit7") 0) = 55
  /\ mapKeyToOSKey (KeyboardEvent.mk (js "Shift") (js "ShiftLeft") 1)
     = OS_Key.LSHIFT
  /\ mapKeyToOSKey (KeyboardEvent.mk (js "Shift") (js "ShiftRight") 2)
     = OS_Key.RSHIFT
  /\ mapKeyToOSKey (KeyboardEvent.mk (js "F5") (js "F5") 0) = OS_Key.F5
  /\ mapKeyToOSKey (KeyboardEvent.mk (js "PageUp") (js "PageUp") 0)
     = OS_Key.UNKNOWN
  /\ mapKeyToOSKey (KeyboardEvent.mk (js "Dead") (js "Quote") 0)
     = OS_Key.UNKNOWN.
Proof. repeat split; vm_compute; reflexivity. Qed.

(** A mapped key is enqueued as one KEYBOARD record, pressed or released. *)
Lemma mapped_key_enqueued {Env : Type} (event : KeyboardEvent.t)
    (p : Page Env) :
  mapKeyToOSKey event <> OS_Key.UNKNOWN ->
  eventQueue (on_keydown event p)
  = eventQueue p ++ [Event.mk OS_Window_Event_Type.KEYBOARD 0 0 1
                              (mapKeyToOSKey event)]
  /\ eventQueue (on_keyup event p)
     = eventQueue p ++ [Event.mk OS_Window_Event_Type.KEYBOARD 0 0 0
                                 (mapKeyToOSKey event)].
Proof.
  intros H. unfold on_keydown, on_keyup.
  apply Z.eqb_neq in H. rewrite H. split; reflexivity.
Qed.

(** C4.  A keyboard event whose key maps to UNKNOWN changes nothing: no
    record is enqueued.  A mouse-button event always enqueues one
    MOUSE_BUTTON record, whose key is UNKNOWN for a button other than 0, 1
    and 2.  A mouse-move and a wheel event always enqueue one record. *)
Theorem unknown_key_suppressed_mouse_enqueued {Env : Type} (p : Page Env) :
  (forall event,
      mapKeyToOSKey event = OS_Key.UNKNOWN ->
      on_keydown event p = p /\ on_keyup event p = p)
  /\ (forall rect event,
        eventQueue (on_mousedown rect event p)
        = eventQueue p ++
            [Event.mk OS_Window_Event_Type.MOUSE_BUTTON
                      (getMousePos rect event).1 (getMousePos rect event).2 1
                      (mapMouseButtonToOSKey (MouseEvent.button event))]
        /\ eventQueue (on_mouseup rect event p)
           = eventQueue p ++
               [Event.mk OS_Window_Event_Type.MOUSE_BUTTON
                         (getMousePos rect event).1 (getMousePos rect event).2 0
                         (mapMouseButtonToOSKey (MouseEvent.button event))])
  /\ (forall button,
        button <> 0 -> button <> 1 -> button <> 2 ->
        mapMouseButtonToOSKey button = OS_Key.UNKNOWN)
  /\ (forall rect event,
        eventQueue (on_mousemove rect event p)
        = eventQueue p ++
            [Event.mk OS_Window_Event_Type.MOUSE_MOVE
                      (getMousePos rect event).1 (getMousePos rect event).2
                      0 0])
  /\ (forall event,
        exists x y,
          eventQueue (on_wheel event p)
          = eventQueue p ++
              [Event.mk OS_Window_Event_Type.MOUSE_SCROLL x y 0 0]).
Proof.
  repeat split.
  - unfold on_keydown. rewrite H. reflexivity.
  - unfold on_keyup. rewrite H. reflexivity.
  - intros button H0 H1 H2. unfold mapMouseButtonToOSKey.
    apply Z.eqb_neq in H0, H1, H2. rewrite H0, H1, H2. reflexivity.
  - intros event. eexists. eexists. reflexivity.
Qed.

Lemma unknown_key_suppressed_mouse_enqueued_witness :
  on_keydown (KeyboardEvent.mk (js "PageUp") (js "PageUp") 0)
             (Demo.page (Demo.moves 1) 0)
  = Demo.page (Demo.moves 1) 0
  /\ mapMouseButtonToOSKey 3 = OS_Key.UNKNOWN.
Proof.
  destruct (unknown_key_suppressed_mouse_enqueued (Demo.page (Demo.moves 1) 0))
    as (Hkey & _ & Hbutton & _).
  split.
  - apply (Hkey (KeyboardEvent.mk (js "PageUp") (js "PageUp") 0)).
    vm_compute. reflexivity.
  - apply Hbutton; lia.
Defined.

Lemma neg_Math_sign (d : Q) :
  - Math_sign d = match (d ?= 0)%Q with Gt => -1 | Eq => 0 | Lt => 1 end.
Proof.
  unfold Math_sign, Qcompare. cbn [Qnum Qden inject_Z].
  rewrite Z.mul_1_r. destruct (Qnum d); reflexivity.
Qed.

(** C5.  A wheel event enqueues one MOUSE_SCROLL record whose [x] and [y]
    are -1, 0 or 1, the opposite of the sign of [deltaX] and of [deltaY];
    the size of the delta is not in the record.  With [deltaY = 120] and
    [deltaX = 0] the record has [y = -1] and [x = 0]. *)
Theorem wheel_reports_inverted_sign {Env : Type} (p : Page Env) :
  (forall event,
      eventQueue (on_wheel event p)
      = eventQueue p ++
          [Event.mk OS_Window_Event_Type.MOUSE_SCROLL
             match (WheelEvent.deltaX event ?= 0)%Q with
             | Gt => -1 | Eq => 0 | Lt => 1 end
             match (WheelEvent.deltaY event ?= 0)%Q with
             | Gt => -1 | Eq => 0 | Lt => 1 end
             0 0])
  /\ eventQueue (on_wheel (WheelEvent.mk 0 120) p)
     = eventQueue p ++ [Event.mk OS_Window_Event_Type.MOUSE_SCROLL 0 (-1) 0 0].
Proof.
  split; [|reflexivity].
  intros event. unfold on_wheel, pushEvent. cbn [eventQueue].
  rewrite !neg_Math_sign. reflexivity.
Qed.

(** Two scrolls in the same direction give the same record, whatever their
    sizes. *)
Example wheel_magnitude_discarded :
  eventQueue (on_wheel (WheelEvent.mk (3 # 2) (-480)) (Demo.page [] 0))
  = eventQueue (on_wheel (WheelEvent.mk 100 (-1 # 3)) (Demo.page [] 0)).
Proof. reflexivity. Qed.

Lemma Math_floor_spec (v : Q) :
  (inject_Z (Math_floor v) <= v < inject_Z (Math_floor v + 1))%Q.
Proof. split; [apply Qfloor_le|apply Qlt_floor]. Qed.

(** ** Rounding to a double *)

Lemma double_round_zero (q : Q) : (q == 0)%Q -> double_round q = 0%Q.
Proof.
  unfold Qeq, double_round. cbn [Qnum Qden]. rewrite Z.mul_1_r.
  intros ->. reflexivity.
Qed.

Lemma round_half_even_lower (m : Q) (N : Z) :
  (inject_Z N <= m)%Q -> N <= round_half_even m.
Proof.
  intros H. apply Qfloor_resp_le in H. rewrite Qfloor_Z in H.
  unfold round_half_even.
  destruct (m - inject_Z (Qfloor m) ?= 1 # 2)%Q; [|lia|lia].
  destruct (Z.even (Qfloor m)); lia.
Qed.

Lemma round_half_even_upper (m : Q) (N : Z) :
  (m <= inject_Z N)%Q -> round_half_even m <= N.
Proof.
  intros H. pose proof (Qfloor_resp_le _ _ H) as Hf. rewrite Qfloor_Z in Hf.
  assert (Hup : (0 < m - inject_Z (Qfloor m))%Q -> Qfloor m + 1 <= N).
  { intros Hpos.
    assert (Hlt : (inject_Z (Qfloor m) < inject_Z N)%Q).
    { eapply Qlt_le_trans; [|exact H]. apply Qlt_minus_iff. exact Hpos. }
    rewrite <- Zlt_Qlt in Hlt. lia. }
  unfold round_half_even.
  destruct (Qcompare_spec (m - inject_Z (Qfloor m)) (1 # 2)) as [He|Hl|Hg].
  - destruct (Z.even (Qfloor m)); [lia|].
    apply Hup. rewrite He. reflexivity.
  - lia.
  - apply Hup. eapply Qlt_trans; [|exact Hg]. reflexivity.
Qed.

(** The rounded integer is within a half of the value. *)
Lemma round_half_even_near (m : Q) :
  (Qabs (inject_Z (round_half_even m) - m) <= 1 # 2)%Q.
Proof.
  pose proof (Qfloor_le m) as Hlo. pose proof (Qlt_floor m) as Hhi.
  rewrite inject_Z_plus in Hhi. unfold round_half_even.
  change (inject_Z 1) with 1%Q in Hhi.
  set (f := inject_Z (Qfloor m)) in *.
  apply Qabs_Qle_condition.
  destruct (Qcompare_spec (m - f) (1 # 2)) as [He|Hl|Hg].
  - destruct (Z.even (Qfloor m)).
    + fold f. lra.
    + rewrite inject_Z_plus. change (inject_Z 1) with 1%Q. fold f. lra.
  - fold f. lra.
  - rewrite inject_Z_plus. change (inject_Z 1) with 1%Q. fold f. lra.
Qed.

Lemma Qpower2_pos (e : Z) : (0 < 2 ^ e)%Q.
Proof. apply Qpower_0_lt. reflexivity. Qed.

Lemma Qpower2_inject (e : Z) : 0 <= e -> (2 ^ e == inject_Z (2 ^ e))%Q.
Proof. intros H. symmetry. apply (Zpower_Qpower 2 e H). Qed.

Lemma Qlog2_lower (q : Q) : ~ (q == 0)%Q -> (2 ^ Qlog2 q <= Qabs q)%Q.
Proof.
  intros Hq. unfold Qlog2.
  set (k := Z.log2 (Z.abs (Qnum q)) - Z.log2 (Z.pos (Qden q))).
  destruct (Qle_bool (2 ^ k) (Qabs q)) eqn:Ht;
    [apply Qle_bool_iff; exact Ht|].
  destruct q as [n d]. cbn [Qnum Qden] in *.
  assert (Hn : 0 < Z.abs n).
  { destruct n; [exfalso; apply Hq; reflexivity|reflexivity|reflexivity]. }
  pose proof (Z.log2_spec _ Hn) as [Ha _].
  pose proof (Z.log2_spec (Z.pos d) ltac:(lia)) as [_ Hb].
  pose proof (Z.log2_nonneg (Z.abs n)) as Ha0.
  pose proof (Z.log2_nonneg (Z.pos d)) as Hb0.
  replace (k - 1) with (Z.log2 (Z.abs n) - Z.succ (Z.log2 (Z.pos d)))
    by (subst k; lia).
  rewrite Qpower_minus by discriminate.
  rewrite !Qpower2_inject by lia.
  destruct (2 ^ Z.succ (Z.log2 (Z.pos d))) as [|B|B] eqn:HB; try lia.
  rewrite <- Qmake_Qdiv.
  change (Qabs (n # d)) with (Z.abs n # d).
  unfold Qle. cbn [Qnum Qden]. nia.
Qed.

Lemma Qlog2_upper (q : Q) : ~ (q == 0)%Q -> (Qabs q < 2 ^ (Qlog2 q + 1))%Q.
Proof.
  intros Hq. unfold Qlog2.
  set (k := Z.log2 (Z.abs (Qnum q)) - Z.log2 (Z.pos (Qden q))).
  destruct (Qle_bool (2 ^ k) (Qabs q)) eqn:Ht.
  - destruct q as [n d]. cbn [Qnum Qden] in *.
    assert (Hn : 0 < Z.abs n).
    { destruct n; [exfalso; apply Hq; reflexivity|reflexivity|reflexivity]. }
    pose proof (Z.log2_spec _ Hn) as [_ Ha].
    pose proof (Z.log2_spec (Z.pos d) ltac:(lia)) as [Hb _].
    pose proof (Z.log2_nonneg (Z.abs n)) as Ha0.
    pose proof (Z.log2_nonneg (Z.pos d)) as Hb0.
    replace (k + 1) with (Z.succ (Z.log2 (Z.abs n)) - Z.log2 (Z.pos d))
      by (subst k; lia).
    rewrite Qpower_minus by discriminate.
    rewrite !Qpower2_inject by lia.
    destruct (2 ^ Z.log2 (Z.pos d)) as [|B|B] eqn:HB; try lia.
    rewrite <- Qmake_Qdiv.
    change (Qabs (n # d)) with (Z.abs n # d).
    unfold Qlt. cbn [Qnum Qden]. nia.
  - replace (k - 1 + 1) with k by lia.
    apply Qnot_le_lt. intros Hle. apply Qle_bool_iff in Hle. congruence.
Qed.

(** The double is within half a unit in the last place of the value. *)
Lemma double_round_near (q : Q) :
  (Qabs (double_round q - q)
   <= (1 # 2) * 2 ^ Z.max (Qlog2 q - 52) (-1074))%Q.
Proof.
  unfold double_round.
  set (e := Z.max (Qlog2 q - 52) (-1074)).
  pose proof (Qpower2_pos e) as Hpos.
  destruct (Qnum q =? 0) eqn:Hz.
  - apply Z.eqb_eq in Hz.
    assert (Hq : (q == 0)%Q) by (unfold Qeq; cbn; lia).
    apply Qabs_Qle_condition. lra.
  - set (m := (q / 2 ^ e)%Q).
    assert (Hm : (inject_Z (round_half_even m) * 2 ^ e - q
                  == (inject_Z (round_half_even m) - m) * 2 ^ e)%Q).
    { unfold m. field. lra. }
    rewrite Hm, Qabs_Qmult, (Qabs_pos (2 ^ e)) by lra.
    apply Qmult_le_compat_r; [apply round_half_even_near|lra].
Qed.

(** The significand of the double has at most 53 bits. *)
Lemma double_round_significand (q : Q) :
  ~ (q == 0)%Q ->
  Z.abs (round_half_even (q / 2 ^ Z.max (Qlog2 q - 52) (-1074))) <= 2 ^ 53.
Proof.
  intros Hq. set (e := Z.max (Qlog2 q - 52) (-1074)).
  pose proof (Qpower2_pos e) as Hpos.
  assert (Hb : (Qabs q <= 2 ^ 53 * 2 ^ e)%Q).
  { rewrite <- Qpower_plus by discriminate.
    eapply Qle_trans; [apply Qlt_le_weak, Qlog2_upper, Hq|].
    apply Qpower_le_compat_l; [lia|discriminate]. }
  apply Qabs_Qle_condition in Hb. destruct Hb as [Hlo Hhi].
  apply Z.abs_le. split.
  - apply round_half_even_lower. apply Qle_shift_div_l; [exact Hpos|].
    change (inject_Z (- 2 ^ 53)) with (- (2 ^ 53))%Q.
    lra.
  - apply round_half_even_upper. apply Qle_shift_div_r; [exact Hpos|].
    change (inject_Z (2 ^ 53)) with (2 ^ 53)%Q. exact Hhi.
Qed.

(** Rounding does not cross an integer, as long as the value is below
    2^53 in size: there every integer is a double. *)
Lemma double_round_integer (q : Q) (n : Z) :
  (Qabs q < 2 ^ 53)%Q ->
  ((inject_Z n <= q)%Q -> (inject_Z n <= double_round q)%Q)
  /\ ((q <= inject_Z n)%Q -> (double_round q <= inject_Z n)%Q).
Proof.
  intros Hsmall. unfold double_round.
  destruct (Qnum q =? 0) eqn:Hz.
  { apply Z.eqb_eq in Hz.
    assert (Hq : (q == 0)%Q) by (unfold Qeq; cbn; lia).
    rewrite Hq. auto. }
  apply Z.eqb_neq in Hz.
  assert (Hq : ~ (q == 0)%Q) by (unfold Qeq; cbn; lia).
  set (e := Z.max (Qlog2 q - 52) (-1074)).
  assert (He : e <= 0).
  { assert (Qlog2 q < 53); [|lia].
    apply (Qpower_lt_compat_l_inv 2); [|reflexivity].
    eapply Qle_lt_trans; [apply Qlog2_lower; exact Hq|exact Hsmall]. }
  pose proof (Qpower2_pos e) as Hpos.
  assert (Hn : (inject_Z (n * 2 ^ (- e)) * 2 ^ e == inject_Z n)%Q).
  { rewrite inject_Z_mult, <- Qpower2_inject by lia.
    rewrite <- Qmult_assoc, <- Qpower_plus by discriminate.
    replace (- e + e) with 0 by lia. apply Qmult_1_r. }
  split; intros H.
  - rewrite <- Hn. apply Qmult_le_compat_r; [|apply Qlt_le_weak, Hpos].
    rewrite <- Zle_Qle. apply round_half_even_lower.
    apply Qle_shift_div_l; [exact Hpos|]. rewrite Hn. exact H.
  - rewrite <- Hn. apply Qmult_le_compat_r; [|apply Qlt_le_weak, Hpos].
    rewrite <- Zle_Qle. apply round_half_even_upper.
    apply Qle_shift_div_r; [exact Hpos|]. rewrite Hn. exact H.
Qed.

Lemma Math_floor_double_round (q : Q) :
  (Qabs q < 2 ^ 53)%Q ->
  Math_floor q <= Math_floor (double_round q) <= Math_floor q + 1.
Proof.
  intros Hsmall. unfold Math_floor. split.
  - destruct (double_round_integer q (Qfloor q) Hsmall) as [Hlo _].
    specialize (Hlo (Qfloor_le q)).
    apply Qfloor_resp_le in Hlo. rewrite Qfloor_Z in Hlo. exact Hlo.
  - destruct (double_round_integer q (Qfloor q + 1) Hsmall) as [_ Hhi].
    specialize (Hhi (Qlt_le_weak _ _ (Qlt_floor q))).
    apply Qfloor_resp_le in Hhi. rewrite Qfloor_Z in Hhi. exact Hhi.
Qed.

Lemma Math_floor_diff_same (a b : Q) :
  (a == b)%Q -> Math_floor (double_sub a b) = 0.
Proof.
  intros H. unfold double_sub.
  rewrite double_round_zero; [reflexivity|].
  rewrite H. unfold Qminus. apply Qplus_opp_r.
Qed.

(** The rounding at the input where the rounded difference reaches the next
    integer: 640.5 - (0.5 + 2^-53) is 640 in doubles. *)
Example double_sub_rounds_up :
  (double_sub (1281 # 2) ((1 # 2) + (1 # 2 ^ 53)) == 640)%Q
  /\ Qfloor ((1281 # 2) - ((1 # 2) + (1 # 2 ^ 53))) = 639.
Proof. split; vm_compute; reflexivity. Qed.

(** 0.1 + 0.2 in doubles, as 0.1 - (-0.2). *)
Example double_sub_tenths :
  (double_sub (3602879701896397 # 2 ^ 55) (- (3602879701896397 # 2 ^ 54))
   == 5404319552844596 # 2 ^ 54)%Q.
Proof. vm_compute. reflexivity. Qed.

(** C8.  The record of a mouse-button event has for [x] and [y] the greatest
    integers not above the differences [clientX - rect.left] and
    [clientY - rect.top] as JavaScript computes them, in double precision;
    below 2^53 in size that is the greatest integer not above the exact
    difference, or the next one when the difference rounds up to it.  A
    click on the top-left corner of the canvas gives [x = 0] and
    [y = 0]. *)
Theorem mouse_button_canvas_coordinates {Env : Type} (p : Page Env)
    (rect : DOMRect.t) (event : MouseEvent.t) :
  (exists x y,
      eventQueue (on_mousedown rect event p)
      = eventQueue p ++
          [Event.mk OS_Window_Event_Type.MOUSE_BUTTON x y 1
                    (mapMouseButtonToOSKey (MouseEvent.button event))]
      /\ eventQueue (on_mouseup rect event p)
         = eventQueue p ++
             [Event.mk OS_Window_Event_Type.MOUSE_BUTTON x y 0
                       (mapMouseButtonToOSKey (MouseEvent.button event))]
      /\ (double_finite (MouseEvent.clientX event - DOMRect.left rect) ->
          (inject_Z x
           <= double_sub (MouseEvent.clientX event) (DOMRect.left rect)
           < inject_Z (x + 1))%Q)
      /\ (double_finite (MouseEvent.clientY event - DOMRect.top rect) ->
          (inject_Z y
           <= double_sub (MouseEvent.clientY event) (DOMRect.top rect)
           < inject_Z (y + 1))%Q)
      /\ ((Qabs (MouseEvent.clientX event - DOMRect.left rect) < 2 ^ 53)%Q ->
          Qfloor (MouseEvent.clientX event - DOMRect.left rect) <= x
          <= Qfloor (MouseEvent.clientX event - DOMRect.left rect) + 1)
      /\ ((Qabs (MouseEvent.clientY event - DOMRect.top rect) < 2 ^ 53)%Q ->
          Qfloor (MouseEvent.clientY event - DOMRect.top rect) <= y
          <= Qfloor (MouseEvent.clientY event - DOMRect.top rect) + 1))
  /\ ((MouseEvent.clientX event == DOMRect.left rect)%Q ->
      (MouseEvent.clientY event == DOMRect.top rect)%Q ->
      eventQueue (on_mousedown rect event p)
      = eventQueue p ++
          [Event.mk OS_Window_Event_Type.MOUSE_BUTTON 0 0 1
                    (mapMouseButtonToOSKey (MouseEvent.button event))]
      /\ eventQueue (on_mouseup rect event p)
         = eventQueue p ++
             [Event.mk OS_Window_Event_Type.MOUSE_BUTTON 0 0 0
                       (mapMouseButtonToOSKey (MouseEvent.button event))]).
Proof.
  split.
  - exists (getMousePos rect event).1, (getMousePos rect event).2.
    split; [reflexivity|]. split; [reflexivity|].
    unfold getMousePos. cbn [fst snd].
    split; [intros _; apply Math_floor_spec|].
    split; [intros _; apply Math_floor_spec|].
    split; intros Hsmall; apply (Math_floor_double_round _ Hsmall).
  - intros Hx Hy.
    unfold on_mousedown, on_mouseup, pushEvent, getMousePos.
    cbn [eventQueue fst snd].
    rewrite (Math_floor_diff_same _ _ Hx), (Math_floor_diff_same _ _ Hy).
    split; reflexivity.
Qed.

Lemma mouse_button_canvas_coordinates_witness :
  eventQueue (on_mousedown (DOMRect.mk (201 # 2) 20)
                           (MouseEvent.mk (201 # 2) 20 0) (Demo.page [] 0))
  = [Event.mk OS_Window_Event_Type.MOUSE_BUTTON 0 0 1 OS_Key.MOUSE_L].
Proof.
  apply (proj2 (mouse_button_canvas_coordinates
                  (Demo.page [] 0) (DOMRect.mk (201 # 2) 20)
                  (MouseEvent.mk (201 # 2) 20 0))); reflexivity.
Defined.

(** A click 3.5 pixels right of and 0.25 pixels above the canvas origin,
    and a click whose difference to the origin rounds up to 640. *)
Example getMousePos_floor :
  getMousePos (DOMRect.mk (201 # 2) 20) (MouseEvent.mk 104 (79 # 4) 0)
  = (3, -1)
  /\ getMousePos (DOMRect.mk ((1 # 2) + (1 # 2 ^ 53)) 0)
                 (MouseEvent.mk (1281 # 2) 0 0)
     = (640, 0).
Proof. split; vm_compute; reflexivity. Qed.

(* ====================================================================== *)
(** * The preload store *)
(* ====================================================================== *)

Section PreloadFacts.
Variable decode : list byte -> jsstring.

(** A path that was not fetched, or whose fetch failed, is not added to
    the store. *)
Lemma preloadFiles_absent (fetch : jsstring -> option (list byte))
    (files : gmap (list N) (list byte)) (path : jsstring) :
  files !! path = None ->
  path ∉ filesToPreload \/ fetch path = None ->
  preloadFiles fetch files !! path = None.
Proof.
  unfold preloadFiles. generalize filesToPreload as paths.
  intros paths. revert files.
  induction paths as [|f paths IH]; intros files Hfiles Hwhy; [exact Hfiles|].
  cbn [foldl]. apply IH.
  - destruct (fetch f) as [bytes|] eqn:Hf; [|exact Hfiles].
    rewrite lookup_insert_ne; [exact Hfiles|].
    intros ->. destruct Hwhy as [Hnot|Hfail]; [|congruence].
    apply Hnot. left.
  - destruct Hwhy as [Hnot|Hfail]; [left|right; exact Hfail].
    intros Hin. apply Hnot. right. exact Hin.
Qed.

(** A file of the store is found, with its size. *)
Lemma present_file_size (files : gmap (list N) (list byte))
    (buffer : list byte) (path_ptr path_len : Z) (path : jsstring)
    (fileData : list byte) :
  cstr_by_ptr decode buffer path_ptr path_len = Some path ->
  files !! path = Some fileData ->
  js_get_file_size decode files buffer path_ptr path_len
  = Some (Z.of_nat (length fileData)).
Proof.
  intros Hpath Hfile. unfold js_get_file_size, js_get_preloaded_file.
  rewrite Hpath. cbn. rewrite Hfile. reflexivity.
Qed.
End PreloadFacts.

(** C6.  For a path that the guest passes in its memory and that is not in
    the preload store, [js_get_preloaded_file] returns null,
    [js_get_file_size] returns 0 and [js_copy_file_to_wasm] returns 0 and
    leaves the memory as it is; none of them raises an exception. *)
Theorem absent_file_is_not_found (decode : list byte -> jsstring)
    (files : gmap (list N) (list byte)) (buffer : list byte)
    (path_ptr path_len dest_ptr max_size : Z) (path : jsstring) :
  cstr_by_ptr decode buffer path_ptr path_len = Some path ->
  files !! path = None ->
  js_get_preloaded_file decode files buffer path_ptr path_len = Some None
  /\ js_get_file_size decode files buffer path_ptr path_len = Some 0
  /\ js_copy_file_to_wasm decode files buffer path_ptr path_len
                          dest_ptr max_size
     = Some (0, buffer).
Proof.
  intros Hpath Hfile.
  unfold js_copy_file_to_wasm, js_get_file_size, js_get_preloaded_file.
  rewrite Hpath. cbn. rewrite Hfile. auto.
Qed.

Lemma absent_file_is_not_found_witness :
  js_get_preloaded_file Demo.decode Demo.store Demo.path_memory 0 5 = Some None
  /\ js_get_file_size Demo.decode Demo.store Demo.path_memory 0 5 = Some 0
  /\ js_copy_file_to_wasm Demo.decode Demo.store Demo.path_memory 0 5 6 2
     = Some (0, Demo.path_memory).
Proof.
  apply (absent_file_is_not_found Demo.decode Demo.store Demo.path_memory
                                  0 5 6 2 (js "a.bin")).
  - vm_compute. reflexivity.
  - vm_compute. reflexivity.
Defined.

(* ====================================================================== *)
(** * The texture handle table *)
(* ====================================================================== *)

Lemma webgl_create_texture_handle buffer data_ptr width height pixel_format
    filter r handle r' :
  webgl_create_texture buffer data_ptr width height pixel_format filter r
  = Some (handle, r') ->
  handle = nextTextureHandle r /\ nextTextureHandle r' = handle + 1
  /\ textureMap r' !! handle = Some (GL.next_object (gl r)).
Proof.
  unfold webgl_create_texture. cbn [GL.fresh]. intros H.
  apply bind_Some in H. destruct H as (pixels & _ & H).
  injection H as <- <-. cbn [nextTextureHandle textureMap].
  rewrite lookup_insert_eq. auto.
Qed.

(** Creating an empty texture ([data_ptr = 0]) reads no memory and always
    returns. *)
Lemma webgl_create_texture_returns buffer width height pixel_format filter r :
  is_Some (webgl_create_texture buffer 0 width height pixel_format filter r).
Proof. unfold webgl_create_texture. cbn. eauto. Qed.

Lemma webgl_destroy_texture_counter handle r :
  nextTextureHandle (webgl_destroy_texture handle r) = nextTextureHandle r.
Proof.
  unfold webgl_destroy_texture.
  destruct (textureMap r !! handle); reflexivity.
Qed.

Lemma webgl_destroy_texture_gone handle r :
  textureMap (webgl_destroy_texture handle r) !! handle = None.
Proof.
  unfold webgl_destroy_texture.
  destruct (textureMap r !! handle) eqn:H; [|exact H].
  cbn [textureMap]. apply lookup_delete_eq.
Qed.

Lemma webgl_set_texture_counter handle pixel_format r :
  nextTextureHandle (webgl_set_texture handle pixel_format r)
  = nextTextureHandle r.
Proof.
  unfold webgl_set_texture.
  destruct (negb (handle =? 0)); [|reflexivity].
  destruct (textureMap r !! handle); reflexivity.
Qed.

(** The [i]-th handle handed out from [r] on is [nextTextureHandle r + i],
    whatever was destroyed or bound in between. *)
Lemma run_texture_ops_handles buffer ops : forall r handles r',
  run_texture_ops buffer ops r = Some (handles, r') ->
  nextTextureHandle r' = nextTextureHandle r + Z.of_nat (length handles)
  /\ forall i h, handles !! i = Some h -> h = nextTextureHandle r + Z.of_nat i.
Proof.
  induction ops as [|op ops IH]; intros r handles r' H.
  - injection H as <- <-. split; [cbn; lia|]. intros i h Hi. discriminate Hi.
  - destruct op as [data_ptr width height pixel_format filter|handle
                   |handle pixel_format]; cbn [run_texture_ops] in H.
    + apply bind_Some in H. destruct H as ([h0 r0] & Hc & H).
      apply bind_Some in H. destruct H as ([hs r1] & Hr & H).
      injection H as <- <-.
      apply webgl_create_texture_handle in Hc. destruct Hc as (-> & Hn & _).
      apply IH in Hr. destruct Hr as [Hr1 Hr2]. split.
      * rewrite Hr1, Hn. cbn [length]. lia.
      * intros [|i] h Hi.
        -- injection Hi as <-. lia.
        -- cbn in Hi. apply Hr2 in Hi. rewrite Hi, Hn. lia.
    + apply IH in H. rewrite webgl_destroy_texture_counter in H. exact H.
    + apply IH in H. rewrite webgl_set_texture_counter in H. exact H.
Qed.

Lemma run_texture_ops_app buffer a b r :
  run_texture_ops buffer (a ++ b) r
  = '(hs1, r1) ← run_texture_ops buffer a r;
    '(hs2, r2) ← run_texture_ops buffer b r1;
    Some (hs1 ++ hs2, r2).
Proof.
  revert r. induction a as [|op a IH]; intros r.
  - cbn. destruct (run_texture_ops buffer b r) as [[hs2 r2]|]; reflexivity.
  - destruct op as [data_ptr width height pixel_format filter|handle
                   |handle pixel_format]; cbn [app run_texture_ops].
    + destruct (webgl_create_texture buffer data_ptr width height
                                     pixel_format filter r) as [[h0 r0]|];
        [|reflexivity].
      cbn [mbind option_bind]. rewrite IH.
      destruct (run_texture_ops buffer a r0) as [[hs1 r1]|]; [|reflexivity].
      cbn [mbind option_bind].
      destruct (run_texture_ops buffer b r1) as [[hs2 r2]|]; reflexivity.
    + apply IH.
    + apply IH.
Qed.

(** C7.  Starting from the state of the loaded page, the handles that
    [webgl_create_texture] returns are 1, 2, 3, ... in the order of the
    calls, whatever is destroyed or bound in between; and after any such
    run, destroying a handle [K] handed out before and creating two
    textures returns two handles above [K], the second above the first. *)
Theorem texture_handles_never_reused (buffer : list byte) (g : GL.ctx)
    (info : option ProgramInfo) :
  (forall ops handles,
      fst <$> run_texture_ops buffer ops (initial_render g info)
      = Some handles ->
      forall i h, handles !! i = Some h -> h = 1 + Z.of_nat i)
  /\ (forall ops K d1 w1 h1 f1 s1 d2 w2 h2 f2 s2 handles,
        fst <$> run_texture_ops buffer
                  (ops ++ [Destroy K; Create d1 w1 h1 f1 s1;
                           Create d2 w2 h2 f2 s2])
                  (initial_render g info) = Some handles ->
        exists before new1 new2,
          handles = before ++ [new1; new2] /\
          fst <$> run_texture_ops buffer ops (initial_render g info)
          = Some before /\
          new1 < new2 /\ (K ∈ before -> K < new1)).
Proof.
  assert (Hall : forall ops handles,
             fst <$> run_texture_ops buffer ops (initial_render g info)
             = Some handles ->
             forall i h, handles !! i = Some h -> h = 1 + Z.of_nat i).
  { intros ops handles H i h Hi.
    apply fmap_Some in H. destruct H as ([hs r'] & H & ->).
    apply run_texture_ops_handles in H. destruct H as [_ H].
    apply (H i h Hi). }
  split; [exact Hall|].
  intros ops K d1 w1 h1 f1 s1 d2 w2 h2 f2 s2 handles H.
  pose proof (Hall _ _ H) as Hidx.
  apply fmap_Some in H. destruct H as ([hs r'] & H & ->). cbn [fst] in Hidx.
  rewrite run_texture_ops_app in H.
  apply bind_Some in H. destruct H as ([before r1] & Hbefore & H).
  apply bind_Some in H. destruct H as ([hs2 r2] & Htail & H).
  injection H as <- <-.
  cbn [run_texture_ops] in Htail.
  apply bind_Some in Htail. destruct Htail as ([new1 r3] & _ & Htail).
  apply bind_Some in Htail. destruct Htail as ([hs3 r4] & Htail & E).
  injection E as <- <-.
  apply bind_Some in Htail. destruct Htail as ([new2 r5] & _ & Htail).
  cbn in Htail. injection Htail as <- <-.
  exists before, new1, new2. split; [reflexivity|].
  split; [rewrite Hbefore; reflexivity|].
  assert (H1 : new1 = 1 + Z.of_nat (length before)).
  { apply Hidx. rewrite lookup_app_r by lia.
    rewrite Nat.sub_diag. reflexivity. }
  assert (H2 : new2 = 1 + Z.of_nat (S (length before))).
  { apply Hidx. rewrite lookup_app_r by lia.
    replace (S (length before) - length before)%nat with 1%nat by lia.
    reflexivity. }
  split; [lia|].
  intros HK. apply list_elem_of_lookup in HK. destruct HK as [i Hi].
  pose proof (lookup_lt_Some _ _ _ Hi) as Hlt.
  assert (HKi : K = 1 + Z.of_nat i).
  { apply Hidx. rewrite lookup_app_l by lia. exact Hi. }
  lia.
Qed.

Lemma texture_handles_never_reused_witness :
  exists before new1 new2,
    [1; 2; 3; 4] = before ++ [new1; new2] /\
    fst <$> run_texture_ops [] [Create 0 8 8 0 1; Create 0 4 4 3 0; Bind 2 3]
              Demo.render = Some before /\
    new1 < new2 /\ (2 ∈ before -> 2 < new1).
Proof.
  apply (proj2 (texture_handles_never_reused
                  [] {| GL.next_object := 1%nat; GL.log := [] |}
                  (Some Demo.info))
               [Create 0 8 8 0 1; Create 0 4 4 3 0; Bind 2 3]
               2 0 2 2 0 0 0 16 16 1 1).
  vm_compute. reflexivity.
Defined.

(* ====================================================================== *)
(** * The draw entry point *)
(* ====================================================================== *)

(** A draw that returns has added its calls to the log, and exactly one of
    them is a draw call: [drawArrays(TRIANGLES, 0, count)]. *)
Lemma webgl_draw_vertex_buffer_one_draw buffer count vert_data vert_size
    vert_stride vert_offset uv_data uv_stride uv_offset color_data
    color_stride color_offset color_is_float r r' :
  webgl_draw_vertex_buffer buffer count vert_data vert_size vert_stride
    vert_offset uv_data uv_stride uv_offset color_data color_stride
    color_offset color_is_float r = Some r' ->
  exists new,
    GL.log (gl r') = GL.log (gl r) ++ new /\
    filter (fun c => GL.is_draw c = true) new
    = [GL.drawArrays GL.TRIANGLES 0 count].
Proof.
  unfold webgl_draw_vertex_buffer. cbn [GL.fresh]. intros H.
  apply bind_Some in H. destruct H as (data & _ & H).
  apply bind_Some in H. destruct H as (info & _ & H).
  injection H as <-. cbn [gl GL.emit GL.log].
  eexists. rewrite <- !app_assoc. split; [reflexivity|].
  reflexivity.
Qed.

(** The flag decides the type of the UV attribute. *)
Lemma draw_calls_uv_type info r posBuffer count vert_size vert_stride
    vert_offset uv_stride uv_offset color_stride color_offset color_is_float :
  draw_calls info r posBuffer count vert_size vert_stride vert_offset
             uv_stride uv_offset color_stride color_offset color_is_float
    !! 6%nat
  = Some (GL.vertexAttribPointer (attrib_uv info) 2
            (if decide (color_is_float = 0) then GL.UNSIGNED_BYTE else GL.FLOAT)
            false uv_stride uv_offset).
Proof.
  cbn. destruct (decide (color_is_float = 0)) as [->|H]; [reflexivity|].
  apply Z.eqb_neq in H. rewrite H. reflexivity.
Qed.

(** The colour attribute is declared as four floats whatever the flag. *)
Lemma draw_calls_color_type info r posBuffer count vert_size vert_stride
    vert_offset uv_stride uv_offset color_stride color_offset color_is_float :
  draw_calls info r posBuffer count vert_size vert_stride vert_offset
             uv_stride uv_offset color_stride color_offset color_is_float
    !! 4%nat
  = Some (GL.vertexAttribPointer (attrib_color info) 4 GL.FLOAT false
                                 color_stride color_offset).
Proof. reflexivity. Qed.

(** C9, at a draw of three vertices with byte-encoded colours
    ([color_is_float = 0]): the colour attribute is still declared as
    [gl.FLOAT]; the flag changed the type of the UV attribute only. *)
Theorem draw_byte_colors_declared_float :
  (fun r' => filter (fun c => GL.is_attrib_pointer c = true) (GL.log (gl r')))
    <$> webgl_draw_vertex_buffer Demo.vertex_memory 3 0 2 20 0 0 20 8 0 20 16 0
                                 Demo.render
  = Some [GL.vertexAttribPointer 0 2 GL.FLOAT false 20 0;
          GL.vertexAttribPointer 1 4 GL.FLOAT false 20 16;
          GL.vertexAttribPointer 2 2 GL.UNSIGNED_BYTE false 20 8].
Proof. vm_compute. reflexivity. Qed.

(* ====================================================================== *)
(** * Further properties of the flush and of the frame loop *)
(* ====================================================================== *)

Lemma setInt32_Some view o v view' :
  setInt32 view o v = Some view' ->
  in_bounds view o 4 /\ length view' = length view.
Proof.
  unfold setInt32. case_decide as Hb; [|discriminate].
  intros [= <-]. split; [exact Hb|].
  apply splice_length. rewrite length_le_split.
  destruct Hb as (? & ? & ?). lia.
Qed.

(** A record that does not fit in the view is not written: one of the five
    [setInt32] calls raises RangeError. *)
Lemma write_event_None view off e :
  ~ in_bounds view off 20 -> write_event view off e = None.
Proof.
  intros Hout. unfold write_event.
  destruct (setInt32 view (off + 0) (Event.type e)) as [v1|] eqn:E1;
    [|reflexivity].
  cbn [mbind option_bind].
  destruct (setInt32 v1 (off + 4) (Event.x e)) as [v2|] eqn:E2;
    [|reflexivity].
  cbn [mbind option_bind].
  destruct (setInt32 v2 (off + 8) (Event.y e)) as [v3|] eqn:E3;
    [|reflexivity].
  cbn [mbind option_bind].
  destruct (setInt32 v3 (off + 12) (Event.pressed e)) as [v4|] eqn:E4;
    [|reflexivity].
  cbn [mbind option_bind].
  destruct (setInt32 v4 (off + 16) (Event.key e)) as [v5|] eqn:E5;
    [|reflexivity].
  exfalso. apply Hout.
  apply setInt32_Some in E1, E2, E3, E4, E5.
  unfold in_bounds in *. lia.
Qed.

Lemma write_loop_Some remaining : forall eventQueue i view off view',
  (i + remaining <= length eventQueue)%nat ->
  write_loop remaining eventQueue i view off = Some view' ->
  remaining = 0%nat \/ in_bounds view off (20 * Z.of_nat remaining).
Proof.
  induction remaining as [|k IH]; intros q i view off view' Hq H;
    [left; reflexivity|right].
  cbn [write_loop] in H.
  apply bind_Some in H. destruct H as (e & He & H).
  apply bind_Some in H. destruct H as (view1 & Hw & H).
  destruct (decide (in_bounds view off 20)) as [Hb|Hb];
    [|rewrite write_event_None in Hw by exact Hb; discriminate].
  destruct Hb as (Hoff & _ & Hfit).
  assert (Hlen : length view1 = length view).
  { rewrite <- (Z2Nat.id off) in Hw by lia.
    rewrite write_event_splice in Hw by lia. injection Hw as <-.
    apply splice_length. rewrite length_event_bytes. lia. }
  apply IH in H; [|lia].
  unfold in_bounds, bytesPerEvent in *. rewrite Hlen in H.
  destruct H as [->|H]; lia.
Qed.

Lemma ToInt32_congruent v : ToInt32 v mod 2 ^ 32 = v mod 2 ^ 32.
Proof.
  unfold ToInt32.
  rewrite Zminus_mod_idemp_l. f_equal. lia.
Qed.

Section FlushMore.
Context {Env : Type} (exports : Exports Env).

Lemma writeEventsToWASM_calls (p p' : Page Env) :
  writeEventsToWASM exports p = Some p' ->
  exists new, calls p' = calls p ++ new /\ Forall count_in_range new.
Proof.
  unfold writeEventsToWASM. intros H.
  destruct (Z.of_nat (length (eventQueue p)) =? 0) eqn:Hn.
  - injection H as <-. exists []. rewrite app_nil_r. auto.
  - apply Z.eqb_neq in Hn.
    apply bind_Some in H. destruct H as ([ptr inst] & _ & H).
    apply bind_Some in H. destruct H as (view & _ & H).
    apply bind_Some in H. destruct H as (inst' & _ & H).
    injection H as <-. cbn [calls]. eexists. split; [reflexivity|].
    constructor; [exact I|]. constructor; [|constructor].
    cbn [count_in_range]. lia.
Qed.

Lemma gameLoop_calls (p p' : Page Env) :
  gameLoop exports p = Some p' ->
  exists new, calls p' = calls p ++ new /\ Forall count_in_range new.
Proof.
  unfold gameLoop. intros H.
  apply bind_Some in H. destruct H as (p1 & H1 & H).
  injection H as <-. cbn [clearEventQueue calls].
  destruct (wasm_frame exports) as [frame|].
  - apply bind_Some in H1. destruct H1 as (p2 & H2 & H1).
    apply bind_Some in H1. destruct H1 as (inst & _ & H1).
    injection H1 as <-. cbn [calls].
    assert (Hp2 : exists new, calls p2 = calls p ++ new
                              /\ Forall count_in_range new).
    { destruct (0 <? Z.of_nat (length (eventQueue p))).
      - apply writeEventsToWASM_calls. exact H2.
      - injection H2 as <-. exists []. rewrite app_nil_r. auto. }
    destruct Hp2 as (new & -> & Hnew).
    exists (new ++ [Call_wasm_frame]). rewrite app_assoc. split; [reflexivity|].
    apply Forall_app. split; [exact Hnew|]. repeat constructor.
  - injection H1 as <-. exists []. rewrite app_nil_r. auto.
Qed.

Lemma step_listener_page (i : Input) (p : Page Env) :
  is_tick i = false ->
  exists p' es, step exports p i = Some p' /\
                eventQueue p' = eventQueue p ++ es /\
                (length es <= 1)%nat /\
                wasm p' = wasm p /\ calls p' = calls p.
Proof.
  destruct i as [ev|ev|rect ev|rect ev|rect ev|ev|w h|]; intros Hi;
    try discriminate Hi; cbn [step].
  - unfold on_keydown.
    destruct (negb (mapKeyToOSKey ev =? OS_Key.UNKNOWN)).
    + eexists. eexists. split; [reflexivity|]. cbn. auto.
    + exists p, []. rewrite app_nil_r. cbn. auto with lia.
  - unfold on_keyup.
    destruct (negb (mapKeyToOSKey ev =? OS_Key.UNKNOWN)).
    + eexists. eexists. split; [reflexivity|]. cbn. auto.
    + exists p, []. rewrite app_nil_r. cbn. auto with lia.
  - eexists. eexists. split; [reflexivity|]. cbn. auto.
  - eexists. eexists. split; [reflexivity|]. cbn. auto.
  - eexists. eexists. split; [reflexivity|]. cbn. auto.
  - eexists. eexists. split; [reflexivity|]. cbn. auto.
  - eexists. eexists. split; [reflexivity|]. cbn. auto.
Qed.

(** A run adds at most one record per input to the queue. *)
Lemma run_queue_bound (inputs : list Input) : forall p p' : Page Env,
  run exports p inputs = Some p' ->
  (length (eventQueue p') <= length (eventQueue p) + length inputs)%nat.
Proof.
  induction inputs as [|i inputs IH]; intros p p' H.
  - injection H as <-. lia.
  - cbn [run] in H. apply bind_Some in H. destruct H as (p1 & Hs & H).
    apply IH in H. cbn [length].
    destruct (is_tick i) eqn:Hi.
    + destruct i; try discriminate Hi. cbn [step] in Hs.
      apply gameLoop_clears in Hs. rewrite Hs in H. cbn [length] in H. lia.
    + destruct (step_listener_page i p Hi) as (q & es & Hq & Hes & Hle & _).
      rewrite Hq in Hs. injection Hs as <-.
      rewrite Hes, length_app in H. lia.
Qed.
End FlushMore.

(** X1.  A flush whose records do not fit in the guest's memory at the
    address the guest gave raises an exception, whatever the guest's
    setter would do; the tick raises it too, so the loop is not scheduled
    again. *)
Theorem flush_out_of_bounds_throws {Env : Type} (exports : Exports Env)
    (p : Page Env) (ptr : Z) (inst : Instance Env) :
  eventQueue p <> [] ->
  wasm_get_event_buffer exports (wasm p) = Some (ptr, inst) ->
  ~ in_bounds (memory inst) ptr
      (bytesPerEvent * Z.of_nat (Nat.min (length (eventQueue p)) 128)) ->
  writeEventsToWASM exports p = None
  /\ (is_Some (wasm_frame exports) -> gameLoop exports p = None).
Proof.
  intros Hne Hget Hout.
  assert (Hpos : (0 < length (eventQueue p))%nat)
    by (destruct (eventQueue p); [congruence|cbn; lia]).
  assert (Hw : writeEventsToWASM exports p = None).
  { unfold writeEventsToWASM.
    replace (Z.of_nat (length (eventQueue p)) =? 0) with false
      by (symmetry; apply Z.eqb_neq; lia).
    rewrite Hget. cbn [mbind option_bind].
    change 128 with (Z.of_nat 128). rewrite <- Nat2Z.inj_min, Nat2Z.id.
    destruct (write_loop (Nat.min (length (eventQueue p)) 128) (eventQueue p)
                         0 (memory inst) ptr) as [view|] eqn:Hloop;
      [|reflexivity].
    exfalso. apply write_loop_Some in Hloop; [|lia].
    destruct Hloop as [Hz|Hb]; [lia|].
    apply Hout. exact Hb. }
  split; [exact Hw|].
  intros [frame Hframe]. unfold gameLoop. rewrite Hframe.
  replace (0 <? Z.of_nat (length (eventQueue p))) with true
    by (symmetry; apply Z.ltb_lt; lia).
  rewrite Hw. reflexivity.
Qed.

Lemma flush_out_of_bounds_throws_witness :
  writeEventsToWASM (Demo.exports_at 4090) (Demo.page (Demo.moves 1) 0) = None
  /\ gameLoop (Demo.exports_at 4090) (Demo.page (Demo.moves 1) 0) = None.
Proof.
  destruct (flush_out_of_bounds_throws
              (Demo.exports_at 4090) (Demo.page (Demo.moves 1) 0) 4090
              (wasm (Demo.page (Demo.moves 1) 0))) as [Hw Hg].
  - discriminate.
  - reflexivity.
  - apply (bool_decide_unpack _). vm_compute. exact I.
  - split; [exact Hw|]. apply Hg. eexists. reflexivity.
Defined.

(** X2.  Whatever the fields of the queued records, a flush that fits
    hands the guest's setter a memory from which the guest reads, for each
    of the first [min (length queue) 128] records, the record with every
    field reduced to a signed 32-bit word: equal to the field modulo
    2^32. *)
Theorem flush_wraps_fields {Env : Type} (exports : Exports Env)
    (p : Page Env) (ptr : Z) (inst : Instance Env) :
  eventQueue p <> [] ->
  wasm_get_event_buffer exports (wasm p) = Some (ptr, inst) ->
  in_bounds (memory inst) ptr
    (bytesPerEvent * Z.of_nat (Nat.min (length (eventQueue p)) 128)) ->
  exists view,
    writeEventsToWASM exports p =
      (inst' ← wasm_set_event_count exports
                 (Z.of_nat (Nat.min (length (eventQueue p)) 128))
                 {| memory := view; env := env inst |};
       Some {| eventQueue := eventQueue p; mousePos := mousePos p;
               wasm := inst';
               calls := calls p ++
                 [Call_wasm_get_event_buffer;
                  Call_wasm_set_event_count
                    (Z.of_nat (Nat.min (length (eventQueue p)) 128))] |})
    /\ length view = length (memory inst)
    /\ read_events (Nat.min (length (eventQueue p)) 128) view ptr
       = Some (Event.wrap <$>
                 take (Nat.min (length (eventQueue p)) 128) (eventQueue p))
    /\ forall e, Event.int32 (Event.wrap e) /\
                 Event.x (Event.wrap e) mod 2 ^ 32 = Event.x e mod 2 ^ 32 /\
                 Event.y (Event.wrap e) mod 2 ^ 32 = Event.y e mod 2 ^ 32.
Proof.
  intros Hne Hget Hfit.
  set (n := Nat.min (length (eventQueue p)) 128) in *.
  exists (splice (memory inst) (Z.to_nat ptr)
                 (flat_map event_bytes (take n (eventQueue p)))).
  assert (Hlen : length (take n (eventQueue p)) = n)
    by (rewrite length_take; lia).
  destruct Hfit as (Hptr & _ & Hfit). unfold bytesPerEvent in Hfit.
  split; [|split; [|split]].
  - apply writeEventsToWASM_flush; try assumption.
    unfold in_bounds, bytesPerEvent. fold n. lia.
  - apply splice_length. rewrite length_flat_map_event_bytes, Hlen. lia.
  - rewrite <- (app_nil_r (flat_map event_bytes _)).
    rewrite <- (Z2Nat.id ptr) at 2 by lia.
    rewrite <- Hlen at 1.
    apply read_events_splice. rewrite Hlen. cbn [length]. lia.
  - intros e. split; [|split].
    + unfold Event.int32, Event.wrap. cbn.
      repeat split; apply ToInt32_range.
    + apply ToInt32_congruent.
    + apply ToInt32_congruent.
Qed.

Lemma flush_wraps_fields_witness :
  exists view,
    memory <$> (wasm <$> writeEventsToWASM Demo.exports
                  (Demo.page [Event.mk 5 (2 ^ 32 + 7) (- 2 ^ 31 - 1) 0 0] 0))
    = Some view
    /\ read_events 1 view 16 = Some [Event.mk 5 7 (2 ^ 31 - 1) 0 0].
Proof.
  destruct (flush_wraps_fields Demo.exports
              (Demo.page [Event.mk 5 (2 ^ 32 + 7) (- 2 ^ 31 - 1) 0 0] 0) 16
              (wasm (Demo.page [Event.mk 5 (2 ^ 32 + 7) (- 2 ^ 31 - 1) 0 0] 0)))
    as (view & Hw & _ & Hr & _).
  - discriminate.
  - reflexivity.
  - apply (bool_decide_unpack _). vm_compute. exact I.
  - exists view. split; [rewrite Hw; reflexivity|exact Hr].
Defined.

(** X3.  On a tick that finds records in the queue, with a guest that has
    a frame function and a buffer that fits: the host calls
    [wasm_get_event_buffer], then [wasm_set_event_count] with
    [min (length queue) 128], then [wasm_frame], in this order; the frame
    function runs on the instance that the setter returned, whose memory
    held the records when the setter was called; and the tick returns
    with an empty queue exactly when neither guest call traps. *)
Theorem tick_flushes_then_runs_frame {Env : Type} (exports : Exports Env)
    (p : Page Env) (ptr : Z) (inst : Instance Env)
    (frame : Instance Env -> option (Instance Env)) :
  eventQueue p <> [] ->
  wasm_frame exports = Some frame ->
  wasm_get_event_buffer exports (wasm p) = Some (ptr, inst) ->
  in_bounds (memory inst) ptr
    (bytesPerEvent * Z.of_nat (Nat.min (length (eventQueue p)) 128)) ->
  gameLoop exports p =
    (inst1 ← wasm_set_event_count exports
               (Z.of_nat (Nat.min (length (eventQueue p)) 128))
               {| memory := splice (memory inst) (Z.to_nat ptr)
                              (flat_map event_bytes
                                 (take (Nat.min (length (eventQueue p)) 128)
                                       (eventQueue p)));
                  env := env inst |};
     inst2 ← frame inst1;
     Some {| eventQueue := []; mousePos := mousePos p; wasm := inst2;
             calls := calls p ++
               [Call_wasm_get_event_buffer;
                Call_wasm_set_event_count
                  (Z.of_nat (Nat.min (length (eventQueue p)) 128));
                Call_wasm_frame] |}).
Proof.
  intros Hne Hframe Hget Hfit. unfold gameLoop. rewrite Hframe.
  replace (0 <? Z.of_nat (length (eventQueue p))) with true.
  2:{ symmetry. apply Z.ltb_lt. destruct (eventQueue p); [congruence|].
      cbn [length]. lia. }
  rewrite (writeEventsToWASM_flush exports p ptr inst Hne Hget Hfit).
  destruct (wasm_set_event_count exports _ _) as [inst1|]; [|reflexivity].
  cbn [mbind option_bind wasm].
  destruct (frame inst1) as [inst2|]; [|reflexivity].
  cbn [mbind option_bind clearEventQueue eventQueue mousePos wasm calls].
  rewrite <- app_assoc. reflexivity.
Qed.

Lemma tick_flushes_then_runs_frame_witness :
  gameLoop Demo.exports (Demo.page (Demo.moves 2) 7) = Some Demo.after_tick.
Proof.
  rewrite (tick_flushes_then_runs_frame
             Demo.exports (Demo.page (Demo.moves 2) 7) 16
             (wasm (Demo.page (Demo.moves 2) 7)) (fun inst => Some inst)).
  - reflexivity.
  - discriminate.
  - reflexivity.
  - reflexivity.
  - apply (bool_decide_unpack _). vm_compute. exact I.
Defined.

(** X4.  With a guest that does not export [wasm_frame], the page never
    calls an export and never touches the instance, whatever DOM events
    and ticks arrive; every step returns, and a tick still empties the
    queue, so the records captured are lost without being delivered. *)
Theorem missing_frame_export_host_idle {Env : Type} (exports : Exports Env)
    (inputs : list Input) (p : Page Env) :
  wasm_frame exports = None ->
  exists p',
    run exports p inputs = Some p' /\
    wasm p' = wasm p /\ calls p' = calls p /\
    (forall before since,
        inputs = before ++ AnimationFrame :: since ->
        (length (eventQueue p') <= length since)%nat).
Proof.
  intros Hframe.
  assert (Hrun : forall (l : list Input) (q : Page Env),
             exists q', run exports q l = Some q' /\
                        wasm q' = wasm q /\ calls q' = calls q).
  { induction l as [|i l IH]; intros q; [exists q; auto|].
    assert (Hstep : exists q1, step exports q i = Some q1 /\
                               wasm q1 = wasm q /\ calls q1 = calls q).
    { destruct (is_tick i) eqn:Hi.
      - destruct i; try discriminate Hi. cbn [step]. unfold gameLoop.
        rewrite Hframe. eexists. split; [reflexivity|]. cbn. auto.
      - destruct (step_listener_page exports i q Hi)
          as (q1 & es & Hs & _ & _ & Hw & Hc).
        exists q1. auto. }
    destruct Hstep as (q1 & Hs & Hw1 & Hc1).
    destruct (IH q1) as (q' & Hr & Hw & Hc).
    exists q'. cbn [run]. rewrite Hs. cbn [mbind option_bind].
    split; [exact Hr|]. split; congruence. }
  destruct (Hrun inputs p) as (p' & Hr & Hw & Hc).
  exists p'. split; [exact Hr|]. split; [exact Hw|]. split; [exact Hc|].
  intros before since ->.
  rewrite run_app in Hr. apply bind_Some in Hr. destruct Hr as (pa & _ & Hr).
  cbn [run step] in Hr. apply bind_Some in Hr.
  destruct Hr as (pb & Htick & Hr).
  apply gameLoop_clears in Htick. apply run_queue_bound in Hr.
  rewrite Htick in Hr. cbn [length] in Hr. lia.
Qed.

Lemma missing_frame_export_host_idle_witness :
  exists p',
    run Demo.exports_without_frame (Demo.page (Demo.moves 3) 7)
        [Wheel (WheelEvent.mk 0 120); AnimationFrame] = Some p' /\
    wasm p' = wasm (Demo.page (Demo.moves 3) 7) /\ calls p' = [] /\
    eventQueue p' = [].
Proof.
  destruct (missing_frame_export_host_idle Demo.exports_without_frame
              [Wheel (WheelEvent.mk 0 120); AnimationFrame]
              (Demo.page (Demo.moves 3) 7) eq_refl)
    as (p' & Hr & Hw & Hc & Hq).
  exists p'. repeat split; try assumption.
  specialize (Hq [Wheel (WheelEvent.mk 0 120)] [] eq_refl).
  destruct (eventQueue p'); [reflexivity|cbn in Hq; lia].
Defined.

(** X5.  Over any run of the page, the log of export calls only grows, and
    every count that the host reports through [wasm_set_event_count] is
    between 1 and 128: it never reports 0 and never more than the
    buffer's capacity. *)
Theorem reported_counts_in_range {Env : Type} (exports : Exports Env)
    (inputs : list Input) (p p' : Page Env) :
  run exports p inputs = Some p' ->
  exists new, calls p' = calls p ++ new /\ Forall count_in_range new.
Proof.
  revert p. induction inputs as [|i inputs IH]; intros p H.
  - injection H as <-. exists []. rewrite app_nil_r. auto.
  - cbn [run] in H. apply bind_Some in H. destruct H as (p1 & Hs & H).
    apply IH in H. destruct H as (new2 & Hc2 & Hn2).
    assert (H1 : exists new, calls p1 = calls p ++ new
                             /\ Forall count_in_range new).
    { destruct (is_tick i) eqn:Hi.
      - destruct i; try discriminate Hi. apply gameLoop_calls in Hs. exact Hs.
      - destruct (step_listener_page exports i p Hi)
          as (q & es & Hq & _ & _ & _ & Hc).
        rewrite Hq in Hs. injection Hs as <-.
        exists []. rewrite app_nil_r. auto. }
    destruct H1 as (new1 & Hc1 & Hn1).
    exists (new1 ++ new2). rewrite Hc2, Hc1, app_assoc.
    split; [reflexivity|]. apply Forall_app. auto.
Qed.

Lemma reported_counts_in_range_witness :
  exists new,
    [Call_wasm_get_event_buffer; Call_wasm_set_event_count 128;
     Call_wasm_frame; Call_wasm_frame] = [] ++ new
    /\ Forall count_in_range new.
Proof.
  apply (reported_counts_in_range Demo.exports
           [AnimationFrame; AnimationFrame] (Demo.page (Demo.moves 130) 0)
           {| eventQueue := []; mousePos := (0, 0);
              wasm := {| memory := splice (repeat Byte.x00 4096) 16
                                     (flat_map event_bytes (Demo.moves 128));
                         env := 128 |};
              calls := [Call_wasm_get_event_buffer;
                        Call_wasm_set_event_count 128;
                        Call_wasm_frame; Call_wasm_frame] |}).
  vm_compute. reflexivity.
Defined.

(** X6.  DOM listeners only append: after any sequence of DOM events, the
    old queue is a prefix of the new one, at most one record was added per
    event, and neither the guest instance nor the log of export calls
    changed. *)
Theorem listeners_only_append {Env : Type} (exports : Exports Env)
    (inputs : list Input) (p : Page Env) :
  forallb (fun i => negb (is_tick i)) inputs = true ->
  exists p' es,
    run exports p inputs = Some p' /\
    eventQueue p' = eventQueue p ++ es /\
    (length es <= length inputs)%nat /\
    wasm p' = wasm p /\ calls p' = calls p.
Proof.
  revert p. induction inputs as [|i inputs IH]; intros p H.
  - exists p, []. rewrite app_nil_r. cbn. auto with lia.
  - cbn [forallb] in H. apply andb_prop in H. destruct H as [Hi H].
    apply negb_true_iff in Hi.
    destruct (step_listener_page exports i p Hi)
      as (p1 & es1 & Hs & Hq1 & Hl1 & Hw1 & Hc1).
    destruct (IH p1 H) as (p' & es2 & Hr & Hq2 & Hl2 & Hw2 & Hc2).
    exists p', (es1 ++ es2). cbn [run]. rewrite Hs. cbn [mbind option_bind].
    split; [exact Hr|]. split; [rewrite Hq2, Hq1, app_assoc; reflexivity|].
    split; [rewrite length_app; cbn [length]; lia|].
    split; congruence.
Qed.

Lemma listeners_only_append_witness :
  exists p' es,
    run Demo.exports (Demo.page (Demo.moves 1) 0)
        [KeyDown (KeyboardEvent.mk (js "PageUp") (js "PageUp") 0);
         Wheel (WheelEvent.mk 0 120)] = Some p' /\
    eventQueue p' = Demo.moves 1 ++ es /\
    (length es <= 2)%nat /\
    wasm p' = wasm (Demo.page (Demo.moves 1) 0) /\ calls p' = [].
Proof.
  apply (listeners_only_append Demo.exports
           [KeyDown (KeyboardEvent.mk (js "PageUp") (js "PageUp") 0);
            Wheel (WheelEvent.mk 0 120)] (Demo.page (Demo.moves 1) 0)).
  reflexivity.
Defined.

(* ====================================================================== *)
(** * Further properties of the key mapping and of the listeners *)
(* ====================================================================== *)

Lemma str_digit_range key :
  str_geb key (js "0") && str_leb key (js "9") = true ->
  exists c rest, key = c :: rest /\ (48 <= c <= 57)%N.
Proof.
  change (js "0") with [48%N]. change (js "9") with [57%N].
  unfold str_geb, str_leb. destruct key as [|c rest]; [discriminate|].
  cbn [str_ltb]. intros H. exists c, rest. split; [reflexivity|].
  destruct (N.ltb_spec c 48); [discriminate|].
  destruct (N.ltb_spec 57 c); [|lia].
  destruct (N.ltb_spec 48 c); cbn in H; try discriminate. lia.
Qed.

Lemma str_single_range key (lo hi : N) :
  (Z.of_nat (length key) =? 1) && str_geb key [lo] && str_leb key [hi] = true ->
  exists c, key = [c] /\ (lo <= c <= hi)%N.
Proof.
  intros H. apply andb_prop in H. destruct H as [H Hhi].
  apply andb_prop in H. destruct H as [Hlen Hlo].
  apply Z.eqb_eq in Hlen.
  destruct key as [|c [|d rest]]; cbn [length] in Hlen; try lia.
  exists c. split; [reflexivity|].
  unfold str_geb, str_leb in *. cbn [str_ltb] in *.
  destruct (N.ltb_spec c lo); [discriminate|].
  destruct (N.ltb_spec hi c); [cbn in Hhi; discriminate|lia].
Qed.

Ltac key_code_const :=
  unfold is_key_code; cbv - [Z.le Z.lt]; lia.

(** X7.  Whatever the keyboard event, [mapKeyToOSKey] returns UNKNOWN, the
    code of a digit (48..57), of a lowercase letter (97..122) or of a
    special key (256..287): never one of the mouse codes 1, 2, 3, and
    always a value that fits the 32-bit [key] field of the record. *)
Theorem key_codes_in_range (event : KeyboardEvent.t) :
  is_key_code (mapKeyToOSKey event)
  /\ mapKeyToOSKey event <> OS_Key.MOUSE_L
  /\ mapKeyToOSKey event <> OS_Key.MOUSE_M
  /\ mapKeyToOSKey event <> OS_Key.MOUSE_R
  /\ is_int32 (mapKeyToOSKey event).
Proof.
  assert (H : is_key_code (mapKeyToOSKey event)).
  { unfold mapKeyToOSKey.
    destruct (str_geb (KeyboardEvent.key event) (js "0")
              && str_leb (KeyboardEvent.key event) (js "9")) eqn:Hd.
    { apply str_digit_range in Hd. destruct Hd as (c & rest & -> & Hc).
      unfold is_key_code. cbn [charCodeAt0]. lia. }
    change (js "A") with [65%N]. change (js "Z") with [90%N].
    change (js "a") with [97%N]. change (js "z") with [122%N].
    destruct ((Z.of_nat (length (KeyboardEvent.key event)) =? 1)
              && str_geb (KeyboardEvent.key event) [65%N]
              && str_leb (KeyboardEvent.key event) [90%N]) eqn:Hu.
    { apply str_single_range in Hu. destruct Hu as (c & -> & Hc).
      unfold is_key_code, toLowerCase. cbn [fmap list_fmap charCodeAt0].
      replace ((65 <=? c)%N && (c <=? 90)%N) with true
        by (symmetry; apply andb_true_intro; split; apply N.leb_le; lia).
      lia. }
    destruct ((Z.of_nat (length (KeyboardEvent.key event)) =? 1)
              && str_geb (KeyboardEvent.key event) [97%N]
              && str_leb (KeyboardEvent.key event) [122%N]) eqn:Hl.
    { apply str_single_range in Hl. destruct Hl as (c & -> & Hc).
      unfold is_key_code. cbn [charCodeAt0]. lia. }
    repeat match goal with
           | |- is_key_code (if ?b then _ else _) => destruct b
           end; key_code_const. }
  split; [exact H|].
  unfold is_key_code, is_int32 in *.
  cbv [OS_Key.UNKNOWN OS_Key.LCONTROL OS_Key.F12 OS_Key.MOUSE_L
       OS_Key.MOUSE_M OS_Key.MOUSE_R] in *.
  lia.
Qed.

(** X8.  Letters are mapped without regard to case, and digits to their
    own code: the key "A".."Z" and the key "a".."z" both give the code of
    the lowercase letter, whatever the [code] and [location] of the
    event. *)
Theorem letter_keys_ignore_case (c : N) (code1 code2 : jsstring)
    (location1 location2 : Z) :
  (65 <= c <= 90)%N ->
  mapKeyToOSKey (KeyboardEvent.mk [c] code1 location1) = Z.of_N c + 32
  /\ mapKeyToOSKey (KeyboardEvent.mk [(c + 32)%N] code2 location2)
     = Z.of_N c + 32.
Proof.
  intros Hc. unfold mapKeyToOSKey, str_geb, str_leb, toLowerCase.
  cbn [KeyboardEvent.key KeyboardEvent.location length].
  change (js "0") with [48%N]. change (js "9") with [57%N].
  change (js "A") with [65%N]. change (js "Z") with [90%N].
  change (js "a") with [97%N]. change (js "z") with [122%N].
  change (Z.of_nat 1 =? 1) with true.
  cbn [str_ltb fmap list_fmap charCodeAt0 andb negb].
  split.
  - repeat match goal with
           | |- context [(?a <? ?b)%N] =>
               destruct (N.ltb_spec a b); try lia; cbn [andb negb]
           | |- context [(?a <=? ?b)%N] =>
               destruct (N.leb_spec a b); try lia; cbn [andb negb]
           end; lia.
  - repeat match goal with
           | |- context [(?a <? ?b)%N] =>
               destruct (N.ltb_spec a b); try lia; cbn [andb negb]
           | |- context [(?a <=? ?b)%N] =>
               destruct (N.leb_spec a b); try lia; cbn [andb negb]
           end; lia.
Qed.

Lemma letter_keys_ignore_case_witness :
  mapKeyToOSKey (KeyboardEvent.mk (js "W") (js "KeyW") 0) = 119
  /\ mapKeyToOSKey (KeyboardEvent.mk (js "w") (js "KeyW") 0) = 119.
Proof.
  apply (letter_keys_ignore_case 87 (js "KeyW") (js "KeyW") 0 0). lia.
Defined.

Lemma startsWith_F5 key :
  startsWith key (js "F5") = true ->
  exists rest, key = 70%N :: 53%N :: rest.
Proof.
  change (js "F5") with [70%N; 53%N].
  destruct key as [|c [|d rest]]; cbn [startsWith]; try discriminate.
  - rewrite andb_false_r. discriminate.
  - intros H. apply andb_prop in H. destruct H as [Hc H].
    apply andb_prop in H. destruct H as [Hd _].
    apply N.eqb_eq in Hc, Hd. subst. exists rest. reflexivity.
Qed.

(** A key whose name starts with F5 and goes on is not mapped. *)
Lemma mapKeyToOSKey_F5_longer code location c rest :
  mapKeyToOSKey (KeyboardEvent.mk (70%N :: 53%N :: c :: rest) code location)
  = OS_Key.UNKNOWN.
Proof.
  unfold mapKeyToOSKey, str_geb, str_leb.
  cbn [KeyboardEvent.key KeyboardEvent.location].
  change (js "0") with [48%N]. change (js "9") with [57%N].
  cbn [str_ltb N.ltb N.compare Pos.compare Pos.compare_cont negb andb].
  replace (Z.of_nat (length (70%N :: 53%N :: c :: rest)) =? 1) with false
    by (symmetry; apply Z.eqb_neq; cbn [length]; lia).
  cbn [andb]. unfold case.
  repeat (rewrite bool_decide_eq_false_2 by (vm_compute; congruence)).
  reflexivity.
Qed.

(** X9.  The keyboard listeners call [preventDefault] exactly for the
    mapped keys other than F5 and F12: an unmapped key keeps its browser
    default (and is not forwarded), while F5 and F12 are forwarded to the
    guest and keep their browser default as well. *)
Theorem keyboard_default_prevented (event : KeyboardEvent.t) :
  (key_preventDefault event = true <->
   mapKeyToOSKey event <> OS_Key.UNKNOWN /\
   KeyboardEvent.key event <> js "F5" /\
   KeyboardEvent.key event <> js "F12")
  /\ (KeyboardEvent.key event = js "F5" ->
      mapKeyToOSKey event = OS_Key.F5)
  /\ (KeyboardEvent.key event = js "F12" ->
      mapKeyToOSKey event = OS_Key.F12).
Proof.
  split; [|split].
  - unfold key_preventDefault, case.
    rewrite !andb_true_iff, !negb_true_iff, Z.eqb_neq, bool_decide_eq_false.
    split.
    + intros (Hm & Hs & H12). split; [exact Hm|]. split; [|exact H12].
      intros E. rewrite E in Hs. discriminate Hs.
    + intros (Hm & H5 & H12). split; [exact Hm|]. split; [|exact H12].
      destruct (startsWith (KeyboardEvent.key event) (js "F5")) eqn:Hs;
        [|reflexivity].
      exfalso. apply startsWith_F5 in Hs. destruct Hs as [rest Hk].
      destruct event as [key code location]. cbn in *. subst key.
      destruct rest as [|c rest]; [apply H5; reflexivity|].
      apply Hm. apply mapKeyToOSKey_F5_longer.
  - destruct event as [key code location]. cbn. intros ->. reflexivity.
  - destruct event as [key code location]. cbn. intros ->. reflexivity.
Qed.

Lemma keyboard_default_prevented_witness :
  mapKeyToOSKey (KeyboardEvent.mk (js "F12") (js "F12") 0) = OS_Key.F12
  /\ key_preventDefault (KeyboardEvent.mk (js "F12") (js "F12") 0) = false
  /\ key_preventDefault (KeyboardEvent.mk (js "Tab") (js "Tab") 0) = true.
Proof.
  split.
  - apply (proj2 (proj2 (keyboard_default_prevented
                           (KeyboardEvent.mk (js "F12") (js "F12") 0)))).
    reflexivity.
  - split; [reflexivity|].
    apply (proj1 (keyboard_default_prevented
                    (KeyboardEvent.mk (js "Tab") (js "Tab") 0))).
    repeat split; vm_compute; congruence.
Defined.

(** X10.  A pointer inside the canvas box gets canvas coordinates in the
    canvas or on its far edge: with [rect.left <= clientX < rect.left +
    width] and [rect.top <= clientY < rect.top + height] for whole numbers
    [width] and [height] up to 2^53, [getMousePos] gives [0 <= x <= width]
    and [0 <= y <= height].  The value [width] itself is reached when the
    difference rounds up to it. *)
Theorem mouse_inside_canvas (rect : DOMRect.t) (event : MouseEvent.t)
    (width height : Z) :
  width <= 2 ^ 53 -> height <= 2 ^ 53 ->
  (DOMRect.left rect <= MouseEvent.clientX event
   < DOMRect.left rect + inject_Z width)%Q ->
  (DOMRect.top rect <= MouseEvent.clientY event
   < DOMRect.top rect + inject_Z height)%Q ->
  0 <= (getMousePos rect event).1 <= width
  /\ 0 <= (getMousePos rect event).2 <= height.
Proof.
  assert (Hdiff : forall a l w : Q,
             (l <= a)%Q -> (a < l + w)%Q ->
             (0 <= a - l)%Q /\ (a - l < w)%Q).
  { intros a l w H1 H2. split.
    - apply (Qplus_le_r _ _ l). ring_simplify. exact H1.
    - apply (Qplus_lt_r _ _ l). ring_simplify. exact H2. }
  assert (Hz : forall (v : Q) (w : Z),
             w <= 2 ^ 53 -> (0 <= v)%Q -> (v < inject_Z w)%Q ->
             0 <= Math_floor (double_round v) <= w).
  { intros v w Hw H0 Hv.
    assert (Hsmall : (Qabs v < 2 ^ 53)%Q).
    { rewrite (Qabs_pos v H0). eapply Qlt_le_trans; [exact Hv|].
      rewrite Qpower2_inject by lia. rewrite <- Zle_Qle. exact Hw. }
    pose proof (Math_floor_double_round v Hsmall) as [Hlo Hhi].
    pose proof (Qfloor_resp_le 0 v H0) as Hf0.
    change (Qfloor 0) with 0 in Hf0.
    assert (Hfw : Qfloor v < w).
    { rewrite Zlt_Qlt. eapply Qle_lt_trans; [apply Qfloor_le|exact Hv]. }
    unfold Math_floor in *. lia. }
  intros Hw Hh [Hx1 Hx2] [Hy1 Hy2].
  unfold getMousePos, double_sub. cbn [fst snd].
  destruct (Hdiff _ _ _ Hx1 Hx2). destruct (Hdiff _ _ _ Hy1 Hy2).
  split; apply Hz; assumption.
Qed.

Lemma mouse_inside_canvas_witness :
  0 <= (getMousePos (DOMRect.mk ((1 # 2) + (1 # 2 ^ 53)) 20)
                    (MouseEvent.mk (1281 # 2) (999 # 2) 0)).1 <= 640
  /\ 0 <= (getMousePos (DOMRect.mk ((1 # 2) + (1 # 2 ^ 53)) 20)
                       (MouseEvent.mk (1281 # 2) (999 # 2) 0)).2 <= 480.
Proof.
  apply (mouse_inside_canvas (DOMRect.mk ((1 # 2) + (1 # 2 ^ 53)) 20)
                             (MouseEvent.mk (1281 # 2) (999 # 2) 0) 640 480).
  - vm_compute. congruence.
  - vm_compute. congruence.
  - split; vm_compute; congruence.
  - split; vm_compute; congruence.
Defined.

(** At that input the pointer is inside the box and [x] is the width. *)
Example mouse_on_far_edge :
  getMousePos (DOMRect.mk ((1 # 2) + (1 # 2 ^ 53)) 20)
              (MouseEvent.mk (1281 # 2) (999 # 2) 0) = (640, 479).
Proof. vm_compute. reflexivity. Qed.

(* ====================================================================== *)
(** * Further properties of the preload store *)
(* ====================================================================== *)

(** X11.  After [preloadFiles], the store holds under each listed path
    whose fetch succeeded the bytes fetched; a listed path whose fetch
    failed and a path that is not listed keep what the store had. *)
Theorem preloadFiles_store (fetch : jsstring -> option (list byte))
    (files : gmap (list N) (list byte)) (path : jsstring) :
  preloadFiles fetch files !! path =
    if decide (path ∈ filesToPreload)
    then match fetch path with
         | Some bytes => Some bytes
         | None => files !! path
         end
    else files !! path.
Proof.
  unfold preloadFiles. generalize filesToPreload as paths.
  intros paths. revert files.
  induction paths as [|f paths IH]; intros files; [reflexivity|].
  cbn [foldl]. rewrite IH. clear IH.
  destruct (decide (path = f)) as [->|Hne].
  - rewrite (decide_True (P := f ∈ f :: paths)) by left.
    destruct (fetch f) as [bytes|] eqn:Hf.
    + rewrite lookup_insert_eq. case_decide; reflexivity.
    + case_decide; reflexivity.
  - assert (Hin : path ∈ f :: paths <-> path ∈ paths).
    { rewrite elem_of_cons. intuition congruence. }
    assert (Hlook : match fetch f with
                    | Some uint8Array => <[f:=uint8Array]> files
                    | None => files
                    end !! path = files !! path).
    { destruct (fetch f); [apply lookup_insert_ne; congruence|reflexivity]. }
    rewrite Hlook.
    destruct (decide (path ∈ paths)) as [Hp|Hp].
    + rewrite decide_True by (apply Hin; exact Hp). reflexivity.
    + rewrite decide_False by (rewrite Hin; exact Hp). reflexivity.
Qed.

Lemma Uint8Array_Some buffer off len bytes :
  Uint8Array buffer off len = Some bytes ->
  in_bounds buffer off len /\ Z.of_nat (length bytes) = len.
Proof.
  unfold Uint8Array. case_decide as Hb; [|discriminate].
  intros [= <-]. split; [exact Hb|].
  destruct Hb as (? & ? & ?). rewrite length_take, length_drop. lia.
Qed.

Lemma Uint8Array_splice buffer off bytes :
  (off + length bytes <= length buffer)%nat ->
  Uint8Array (splice buffer off bytes) (Z.of_nat off)
             (Z.of_nat (length bytes)) = Some bytes.
Proof.
  intros H. unfold Uint8Array. rewrite decide_True.
  - rewrite !Nat2Z.id.
    pose proof (splice_read buffer off [] bytes []) as Hr.
    cbn [app length] in Hr. rewrite app_nil_r, Nat.add_0_r in Hr.
    rewrite Hr by lia. reflexivity.
  - unfold in_bounds. rewrite splice_length by exact H. lia.
Qed.

(** The copy of a stored file, with the bytes it leaves at [dest_ptr]. *)
Lemma copy_file_writes_prefix_aux (decode : list byte -> jsstring)
    (files : gmap (list N) (list byte)) (buffer : list byte)
    (path_ptr path_len dest_ptr max_size : Z) (path : jsstring)
    (fileData : list byte) :
  cstr_by_ptr decode buffer path_ptr path_len = Some path ->
  files !! path = Some fileData ->
  in_bounds buffer dest_ptr (Z.min (Z.of_nat (length fileData)) max_size) ->
  js_copy_file_to_wasm decode files buffer path_ptr path_len
                       dest_ptr max_size
  = Some (Z.min (Z.of_nat (length fileData)) max_size,
          splice buffer (Z.to_nat dest_ptr)
                 (take (Z.to_nat (Z.min (Z.of_nat (length fileData)) max_size))
                       fileData))
  /\ Uint8Array (splice buffer (Z.to_nat dest_ptr)
                   (take (Z.to_nat (Z.min (Z.of_nat (length fileData))
                                          max_size)) fileData))
                dest_ptr (Z.min (Z.of_nat (length fileData)) max_size)
     = Some (take (Z.to_nat (Z.min (Z.of_nat (length fileData)) max_size))
                  fileData).
Proof.
  intros Hpath Hfile Hfit.
  set (n := Z.min (Z.of_nat (length fileData)) max_size) in *.
  pose proof Hfit as (Hd & Hn & Hlen).
  assert (Hbytes : length (take (Z.to_nat n) fileData) = Z.to_nat n)
    by (rewrite length_take; lia).
  split.
  - unfold js_copy_file_to_wasm, js_get_preloaded_file.
    rewrite Hpath. cbn [mbind option_bind]. rewrite Hfile. fold n.
    rewrite decide_True by exact Hfit. reflexivity.
  - rewrite <- (Z2Nat.id dest_ptr) at 2 by lia.
    rewrite <- (Z2Nat.id n) at 2 by lia. rewrite <- Hbytes at 2.
    apply Uint8Array_splice. rewrite Hbytes. lia.
Qed.

(** X12.  Copying a file that is in the store, to a destination range that
    lies in the guest's memory: the call returns
    [min (file size) max_size]; afterwards the memory holds that many
    leading bytes of the file from [dest_ptr] on, and is unchanged before
    and after that range. *)
Theorem copy_file_writes_prefix (decode : list byte -> jsstring)
    (files : gmap (list N) (list byte)) (buffer : list byte)
    (path_ptr path_len dest_ptr max_size : Z) (path : jsstring)
    (fileData : list byte) :
  cstr_by_ptr decode buffer path_ptr path_len = Some path ->
  files !! path = Some fileData ->
  in_bounds buffer dest_ptr (Z.min (Z.of_nat (length fileData)) max_size) ->
  exists (copied : Z) (buffer' : list byte),
    js_copy_file_to_wasm decode files buffer path_ptr path_len
                         dest_ptr max_size = Some (copied, buffer')
    /\ copied = Z.min (Z.of_nat (length fileData)) max_size
    /\ length buffer' = length buffer
    /\ Uint8Array buffer' dest_ptr copied
       = Some (take (Z.to_nat copied) fileData)
    /\ take (Z.to_nat dest_ptr) buffer' = take (Z.to_nat dest_ptr) buffer
    /\ drop (Z.to_nat (dest_ptr + copied)) buffer'
       = drop (Z.to_nat (dest_ptr + copied)) buffer.
Proof.
  intros Hpath Hfile Hfit.
  destruct (copy_file_writes_prefix_aux decode files buffer path_ptr path_len
              dest_ptr max_size path fileData Hpath Hfile Hfit)
    as (Hcopy & Hread).
  set (n := Z.min (Z.of_nat (length fileData)) max_size) in *.
  pose proof Hfit as (Hd & Hn & Hlen).
  assert (Hbytes : length (take (Z.to_nat n) fileData) = Z.to_nat n)
    by (rewrite length_take; lia).
  exists n, (splice buffer (Z.to_nat dest_ptr) (take (Z.to_nat n) fileData)).
  split; [exact Hcopy|].
  split; [reflexivity|]. split; [|split; [exact Hread|split]].
  - apply splice_length. rewrite Hbytes. lia.
  - apply splice_frame. rewrite Hbytes. lia.
  - replace (Z.to_nat (dest_ptr + n))
      with (Z.to_nat dest_ptr + length (take (Z.to_nat n) fileData))%nat
      by (rewrite Hbytes; lia).
    apply splice_frame. rewrite Hbytes. lia.
Qed.

Lemma copy_file_writes_prefix_witness :
  exists (copied : Z) (buffer' : list byte),
    js_copy_file_to_wasm Demo.decode Demo.store Demo.font_path_memory
                         0 15 16 2 = Some (copied, buffer')
    /\ copied = Z.min (Z.of_nat (length [Byte.x01; Byte.x02; Byte.x03])) 2
    /\ length buffer' = length Demo.font_path_memory
    /\ Uint8Array buffer' 16 copied
       = Some (take (Z.to_nat copied) [Byte.x01; Byte.x02; Byte.x03])
    /\ take (Z.to_nat 16) buffer' = take (Z.to_nat 16) Demo.font_path_memory
    /\ drop (Z.to_nat (16 + copied)) buffer'
       = drop (Z.to_nat (16 + copied)) Demo.font_path_memory.
Proof.
  apply (copy_file_writes_prefix Demo.decode Demo.store Demo.font_path_memory
                                 0 15 16 2 (js "public/font.ttf")).
  - vm_compute. reflexivity.
  - vm_compute. reflexivity.
  - apply (bool_decide_unpack _). vm_compute. exact I.
Defined.

(** X13.  The file imports check their pointers: when the path range is not
    in the guest's memory all three raise an exception, and when the file
    is found but the range to write is not in memory (or [max_size] is
    negative) the copy raises one. *)
Theorem file_imports_check_bounds (decode : list byte -> jsstring)
    (files : gmap (list N) (list byte)) (buffer : list byte)
    (path_ptr path_len dest_ptr max_size : Z) :
  (~ in_bounds buffer path_ptr path_len ->
   js_get_preloaded_file decode files buffer path_ptr path_len = None
   /\ js_get_file_size decode files buffer path_ptr path_len = None
   /\ js_copy_file_to_wasm decode files buffer path_ptr path_len
                           dest_ptr max_size = None)
  /\ (forall fileData,
         js_get_preloaded_file decode files buffer path_ptr path_len
         = Some (Some fileData) ->
         ~ in_bounds buffer dest_ptr
             (Z.min (Z.of_nat (length fileData)) max_size) ->
         js_copy_file_to_wasm decode files buffer path_ptr path_len
                              dest_ptr max_size = None).
Proof.
  split.
  - intros Hout.
    unfold js_copy_file_to_wasm, js_get_file_size, js_get_preloaded_file,
      cstr_by_ptr, Uint8Array.
    rewrite decide_False by exact Hout. auto.
  - intros fileData Hfile Hout. unfold js_copy_file_to_wasm.
    rewrite Hfile. cbn [mbind option_bind].
    rewrite decide_False by exact Hout. reflexivity.
Qed.

Lemma file_imports_check_bounds_witness :
  js_get_file_size Demo.decode Demo.store Demo.font_path_memory 20 15 = None
  /\ js_copy_file_to_wasm Demo.decode Demo.store Demo.font_path_memory
                          0 15 30 3 = None
  /\ js_copy_file_to_wasm Demo.decode Demo.store Demo.font_path_memory
                          0 15 16 (-1) = None.
Proof.
  destruct (file_imports_check_bounds Demo.decode Demo.store
              Demo.font_path_memory 20 15 0 0) as [Hpath _].
  destruct (file_imports_check_bounds Demo.decode Demo.store
              Demo.font_path_memory 0 15 30 3) as [_ Hdest].
  destruct (file_imports_check_bounds Demo.decode Demo.store
              Demo.font_path_memory 0 15 16 (-1)) as [_ Hneg].
  split; [|split].
  - apply Hpath. apply (bool_decide_unpack _). vm_compute. exact I.
  - apply (Hdest [Byte.x01; Byte.x02; Byte.x03]).
    + vm_compute. reflexivity.
    + apply (bool_decide_unpack _). vm_compute. exact I.
  - apply (Hneg [Byte.x01; Byte.x02; Byte.x03]).
    + vm_compute. reflexivity.
    + apply (bool_decide_unpack _). vm_compute. exact I.
Defined.

(** X14.  Asking for the size of a stored file and then copying with that
    size as [max_size] brings the whole file into the guest's memory: the
    copy returns the size, and the bytes at [dest_ptr] are the file. *)
Theorem size_then_copy_roundtrip (decode : list byte -> jsstring)
    (files : gmap (list N) (list byte)) (buffer : list byte)
    (path_ptr path_len dest_ptr : Z) (path : jsstring)
    (fileData : list byte) :
  cstr_by_ptr decode buffer path_ptr path_len = Some path ->
  files !! path = Some fileData ->
  in_bounds buffer dest_ptr (Z.of_nat (length fileData)) ->
  exists (size : Z) (buffer' : list byte),
    js_get_file_size decode files buffer path_ptr path_len = Some size
    /\ js_copy_file_to_wasm decode files buffer path_ptr path_len
                            dest_ptr size = Some (size, buffer')
    /\ Uint8Array buffer' dest_ptr size = Some fileData.
Proof.
  intros Hpath Hfile Hfit.
  destruct (copy_file_writes_prefix_aux decode files buffer path_ptr path_len
              dest_ptr (Z.of_nat (length fileData)) path fileData Hpath Hfile)
    as (Hcopy & Hread).
  { rewrite Z.min_id. exact Hfit. }
  rewrite Z.min_id in *. rewrite Nat2Z.id, firstn_all in *.
  eexists. eexists. split; [|split; [exact Hcopy|exact Hread]].
  unfold js_get_file_size, js_get_preloaded_file.
  rewrite Hpath. cbn [mbind option_bind]. rewrite Hfile. reflexivity.
Qed.

Lemma size_then_copy_roundtrip_witness :
  exists (size : Z) (buffer' : list byte),
    js_get_file_size Demo.decode Demo.store Demo.font_path_memory 0 15
    = Some size
    /\ js_copy_file_to_wasm Demo.decode Demo.store Demo.font_path_memory
                            0 15 16 size = Some (size, buffer')
    /\ Uint8Array buffer' 16 size = Some [Byte.x01; Byte.x02; Byte.x03].
Proof.
  apply (size_then_copy_roundtrip Demo.decode Demo.store
           Demo.font_path_memory 0 15 16 (js "public/font.ttf")).
  - vm_compute. reflexivity.
  - vm_compute. reflexivity.
  - apply (bool_decide_unpack _). vm_compute. exact I.
Defined.

(* ====================================================================== *)
(** * Properties of the utility functions *)
(* ====================================================================== *)

Lemma cstrlen_loop_next fuel mem ptr len :
  Uint8Array_get mem ptr <> Some Byte.x00 ->
  cstrlen_loop (S fuel) mem ptr len = cstrlen_loop fuel mem (ptr + 1) (len + 1).
Proof.
  intros H. cbn [cstrlen_loop].
  destruct (Uint8Array_get mem ptr) as [b|]; [|reflexivity].
  destruct b; try reflexivity. congruence.
Qed.

Lemma cstrlen_loop_stop fuel mem ptr len :
  Uint8Array_get mem ptr = Some Byte.x00 ->
  cstrlen_loop (S fuel) mem ptr len = Some len.
Proof. intros H. cbn [cstrlen_loop]. rewrite H. reflexivity. Qed.

Lemma cstrlen_loop_finds (n : nat) : forall fuel mem ptr len,
  0 <= ptr ->
  (forall i, (i < n)%nat ->
             exists b, mem !! (Z.to_nat ptr + i)%nat = Some b
                       /\ b <> Byte.x00) ->
  mem !! (Z.to_nat ptr + n)%nat = Some Byte.x00 ->
  (n < fuel)%nat ->
  cstrlen_loop fuel mem ptr len = Some (len + Z.of_nat n).
Proof.
  induction n as [|n IH]; intros fuel mem ptr len Hptr Hbody Hend Hfuel;
    (destruct fuel as [|fuel]; [lia|]).
  - rewrite cstrlen_loop_stop; [f_equal; lia|].
    unfold Uint8Array_get. rewrite decide_True by lia.
    rewrite Nat.add_0_r in Hend. exact Hend.
  - rewrite cstrlen_loop_next.
    + rewrite IH; [f_equal; lia|lia| | |lia].
      * intros i Hi. destruct (Hbody (S i)) as (b & Hb & Hnz); [lia|].
        exists b. split; [|exact Hnz]. rewrite <- Hb. f_equal. lia.
      * rewrite <- Hend. f_equal. lia.
    + unfold Uint8Array_get. rewrite decide_True by lia.
      destruct (Hbody 0%nat) as (b & Hb & Hnz); [lia|].
      rewrite Nat.add_0_r in Hb. rewrite Hb. congruence.
Qed.

(** X15.  On a string that starts inside the array and is closed by a zero
    byte, [cstrlen] returns the number of bytes before that zero, as soon
    as it is given more iterations than that. *)
Theorem cstrlen_finds_terminator (mem : list byte) (ptr : Z) (n fuel : nat) :
  0 <= ptr ->
  (forall i, (i < n)%nat ->
             exists b, mem !! (Z.to_nat ptr + i)%nat = Some b
                       /\ b <> Byte.x00) ->
  mem !! (Z.to_nat ptr + n)%nat = Some Byte.x00 ->
  (n < fuel)%nat ->
  cstrlen fuel mem ptr = Some (Z.of_nat n).
Proof.
  intros Hptr Hbody Hend Hfuel. unfold cstrlen.
  rewrite (cstrlen_loop_finds n) by assumption. reflexivity.
Qed.

Lemma cstrlen_finds_terminator_witness :
  cstrlen 20 Demo.font_path_memory 7 = Some 8.
Proof.
  apply (cstrlen_finds_terminator Demo.font_path_memory 7 8 20).
  - lia.
  - intros i Hi.
    do 8 (destruct i as [|i]; [eexists; split; [reflexivity|discriminate]|]).
    lia.
  - reflexivity.
  - lia.
Defined.

(** X16.  When no byte from the start of the string on is zero, [cstrlen]
    never returns: past the end of the array it keeps counting, because an
    [undefined] element is different from 0.  The same holds for a
    negative pointer on a memory without a zero byte. *)
Theorem cstrlen_without_terminator_diverges (mem : list byte) (ptr : Z) :
  (forall i, (Z.to_nat ptr <= i)%nat -> mem !! i <> Some Byte.x00) ->
  forall fuel, cstrlen fuel mem ptr = None.
Proof.
  intros Hnz fuel. unfold cstrlen. generalize 0 as len. revert ptr Hnz.
  induction fuel as [|fuel IH]; intros ptr Hnz len; [reflexivity|].
  rewrite cstrlen_loop_next.
  - apply IH. intros i Hi. apply Hnz. lia.
  - unfold Uint8Array_get. case_decide; [|discriminate].
    apply Hnz. lia.
Qed.

Lemma cstrlen_without_terminator_diverges_witness :
  cstrlen 1000 (repeat Byte.xaa 16) 3 = None.
Proof.
  apply (cstrlen_without_terminator_diverges (repeat Byte.xaa 16) 3).
  intros i _ H. apply list_elem_of_lookup_2 in H.
  apply list_elem_of_In, repeat_spec in H. discriminate H.
Defined.

Lemma byte_to_wasm_pages_div (size : Z) :
  byte_to_wasm_pages size = - ((- size) / bytesPerPage).
Proof.
  unfold byte_to_wasm_pages, bytesPerPage, Qceiling, Qfloor.
  cbn [Qdiv Qmult Qinv inject_Z Qnum Qden Qopp Z.mul Pos.mul].
  rewrite Z.mul_1_r. reflexivity.
Qed.

(** X17.  [byte_to_wasm_pages] gives the least number of 64 KiB pages that
    hold [size] bytes: the pages cover [size], and one page fewer would
    not. *)
Theorem byte_to_wasm_pages_least_cover (size : Z) :
  (byte_to_wasm_pages size - 1) * bytesPerPage < size
  <= byte_to_wasm_pages size * bytesPerPage.
Proof.
  rewrite byte_to_wasm_pages_div. unfold bytesPerPage.
  pose proof (Z.div_mod (- size) 65536 ltac:(lia)).
  pose proof (Z.mod_pos_bound (- size) 65536 ltac:(lia)).
  lia.
Qed.

(** X18.  A [js_memory_grow] that returns keeps every byte of the memory
    where it was and appends whole pages of zero bytes, enough for the
    bytes asked and less than one page more; whatever could be read
    before reads the same after. *)
Theorem memory_grow_keeps_content (maximum new_byte_length : Z)
    (buffer buffer' : list byte) :
  js_memory_grow maximum new_byte_length buffer = Some buffer' ->
  exists added : nat,
    buffer' = buffer ++ replicate added Byte.x00
    /\ new_byte_length <= Z.of_nat added < new_byte_length + bytesPerPage
    /\ Z.of_nat added mod bytesPerPage = 0
    /\ Z.of_nat (length buffer') <= maximum * bytesPerPage
    /\ forall off len,
         in_bounds buffer off len ->
         Uint8Array buffer' off len = Uint8Array buffer off len.
Proof.
  unfold js_memory_grow, Memory_grow. intros H.
  case_decide as Hok; [|discriminate]. injection H as <-.
  destruct Hok as [Hpos Hmax].
  pose proof (byte_to_wasm_pages_least_cover new_byte_length) as Hcover.
  set (pages := byte_to_wasm_pages new_byte_length) in *.
  exists (Z.to_nat (pages * bytesPerPage)).
  assert (Hb : 0 <= pages * bytesPerPage) by (unfold bytesPerPage; lia).
  split; [reflexivity|]. rewrite Z2Nat.id by exact Hb.
  split; [unfold bytesPerPage in *; lia|].
  split; [apply Z_mod_mult|].
  split; [rewrite length_app, length_replicate; lia|].
  intros off len Hin. unfold Uint8Array.
  rewrite (decide_True (P := in_bounds buffer off len)) by exact Hin.
  destruct Hin as (Hoff & Hlen & Hfit).
  rewrite decide_True
    by (unfold in_bounds; rewrite length_app, length_replicate; lia).
  f_equal. rewrite drop_app_le by lia.
  rewrite take_app_le by (rewrite length_drop; lia). reflexivity.
Qed.

Lemma memory_grow_keeps_content_witness :
  exists added : nat,
    Demo.font_path_memory ++ replicate (Z.to_nat (1 * bytesPerPage)) Byte.x00
    = Demo.font_path_memory ++ replicate added Byte.x00
    /\ 100 <= Z.of_nat added < 100 + bytesPerPage
    /\ Z.of_nat added mod bytesPerPage = 0
    /\ Z.of_nat (length (Demo.font_path_memory ++
                         replicate (Z.to_nat (1 * bytesPerPage)) Byte.x00))
       <= 8192 * bytesPerPage
    /\ forall off len,
         in_bounds Demo.font_path_memory off len ->
         Uint8Array (Demo.font_path_memory ++
                     replicate (Z.to_nat (1 * bytesPerPage)) Byte.x00)
                    off len
         = Uint8Array Demo.font_path_memory off len.
Proof.
  apply (memory_grow_keeps_content 8192 100 Demo.font_path_memory).
  unfold js_memory_grow, Memory_grow.
  replace (byte_to_wasm_pages 100) with 1 by (vm_compute; reflexivity).
  rewrite decide_True by (vm_compute; split; congruence).
  reflexivity.
Defined.

(* ====================================================================== *)
(** * Further properties of the render backend *)
(* ====================================================================== *)

Lemma created_textures_app l k :
  created_textures (l ++ k) = created_textures l ++ created_textures k.
Proof. apply omap_app. Qed.

Lemma deleted_textures_app l k :
  deleted_textures (l ++ k) = deleted_textures l ++ deleted_textures k.
Proof. apply omap_app. Qed.

(** What a create that returns changes. *)
Lemma webgl_create_texture_state buffer data_ptr width height pixel_format
    filter r handle r' :
  webgl_create_texture buffer data_ptr width height pixel_format filter r
  = Some (handle, r') ->
  handle = nextTextureHandle r
  /\ nextTextureHandle r' = handle + 1
  /\ textureMap r' = <[handle := GL.next_object (gl r)]> (textureMap r)
  /\ GL.next_object (gl r') = S (GL.next_object (gl r))
  /\ created_textures (GL.log (gl r'))
     = created_textures (GL.log (gl r)) ++ [GL.next_object (gl r)]
  /\ deleted_textures (GL.log (gl r')) = deleted_textures (GL.log (gl r))
  /\ currentTexture r' = currentTexture r
  /\ currentTexturePixelFormat r' = currentTexturePixelFormat r
  /\ matProj r' = matProj r /\ matModel r' = matModel r
  /\ programInfo r' = programInfo r.
Proof.
  unfold webgl_create_texture. cbn [GL.fresh]. intros H.
  apply bind_Some in H. destruct H as (pixels & _ & H).
  injection H as <- <-.
  cbn [nextTextureHandle textureMap gl currentTexture
       currentTexturePixelFormat matProj matModel programInfo].
  repeat (split; [reflexivity|]).
  split; [destruct (negb (filter =? 0)); reflexivity|].
  split; [|split; [|repeat split]];
    destruct (negb (filter =? 0)); cbn [GL.emit GL.log GL.next_object];
    rewrite ?created_textures_app, ?deleted_textures_app; cbn;
    rewrite ?app_nil_r; reflexivity.
Qed.

(** What a draw that returns changes: the context only. *)
Lemma webgl_draw_vertex_buffer_state buffer count vert_data vert_size
    vert_stride vert_offset uv_data uv_stride uv_offset color_data
    color_stride color_offset color_is_float r r' :
  webgl_draw_vertex_buffer buffer count vert_data vert_size vert_stride
    vert_offset uv_data uv_stride uv_offset color_data color_stride
    color_offset color_is_float r = Some r' ->
  exists data info,
    float32_array_by_ptr buffer vert_data (Z.quot (count * vert_stride) 4)
    = Some data
    /\ programInfo r = Some info
    /\ GL.log (gl r')
       = GL.log (gl r) ++
         [GL.createBuffer (GL.next_object (gl r));
          GL.bindBuffer GL.ARRAY_BUFFER (GL.next_object (gl r));
          GL.bufferData GL.ARRAY_BUFFER data GL.STREAM_DRAW] ++
         draw_calls info r (GL.next_object (gl r)) count vert_size vert_stride
                    vert_offset uv_stride uv_offset color_stride color_offset
                    color_is_float
    /\ GL.next_object (gl r') = S (GL.next_object (gl r))
    /\ textureMap r' = textureMap r
    /\ nextTextureHandle r' = nextTextureHandle r
    /\ currentTexture r' = currentTexture r
    /\ currentTexturePixelFormat r' = currentTexturePixelFormat r
    /\ matProj r' = matProj r /\ matModel r' = matModel r
    /\ programInfo r' = programInfo r.
Proof.
  unfold webgl_draw_vertex_buffer. cbn [GL.fresh]. intros H.
  apply bind_Some in H. destruct H as (data & Hdata & H).
  apply bind_Some in H. destruct H as (info & Hinfo & H).
  injection H as <-. exists data, info.
  cbn [gl GL.emit GL.log GL.next_object textureMap nextTextureHandle
       currentTexture currentTexturePixelFormat matProj matModel programInfo].
  split; [exact Hdata|]. split; [exact Hinfo|].
  split; [rewrite <- !app_assoc; reflexivity|].
  repeat split; reflexivity.
Qed.

Lemma render_ok_initial (n : GL.object) (info : option ProgramInfo) :
  render_ok (initial_render {| GL.next_object := n; GL.log := [] |} info).
Proof.
  unfold render_ok, initial_render. cbn.
  split; [lia|].
  split; [intros h t H; rewrite lookup_empty in H; discriminate|].
  split; [intros h1 h2 t H; rewrite lookup_empty in H; discriminate|].
  split; [intros t H; apply elem_of_nil in H; contradiction|].
  split; [constructor|].
  intros t H. apply elem_of_nil in H. contradiction.
Qed.

Lemma render_ok_create buffer data_ptr width height pixel_format filter r
    handle r' :
  render_ok r ->
  webgl_create_texture buffer data_ptr width height pixel_format filter r
  = Some (handle, r') ->
  render_ok r'.
Proof.
  intros (Hnext & Hmap & Hinj & Hcr & Hnd & Hdel) H.
  apply webgl_create_texture_state in H.
  destruct H as (-> & Hn' & Hm' & Ho' & Hc' & Hd' & _).
  assert (Hfresh : GL.next_object (gl r) ∉ created_textures (GL.log (gl r))).
  { intros Hin. apply Hcr in Hin. lia. }
  unfold render_ok. rewrite Hn', Hm', Ho', Hc', Hd'.
  split; [lia|]. split; [|split; [|split; [|split]]].
  - intros h t Hl. destruct (decide (h = nextTextureHandle r)) as [->|Hne].
    + rewrite lookup_insert_eq in Hl. injection Hl as <-.
      split; [lia|]. split; [apply elem_of_app; right; left|].
      intros Hin. apply Hfresh, Hdel, Hin.
    + rewrite lookup_insert_ne in Hl by congruence.
      destruct (Hmap h t Hl) as (Hh & Hc & Hd).
      split; [lia|]. split; [apply elem_of_app; left; exact Hc|exact Hd].
  - intros h1 h2 t H1 H2.
    destruct (decide (h1 = nextTextureHandle r)) as [->|Hne1];
      destruct (decide (h2 = nextTextureHandle r)) as [->|Hne2];
      [reflexivity| | |].
    + rewrite lookup_insert_eq in H1. injection H1 as <-.
      rewrite lookup_insert_ne in H2 by congruence.
      exfalso. apply Hfresh. apply (Hmap h2 _ H2).
    + rewrite lookup_insert_eq in H2. injection H2 as <-.
      rewrite lookup_insert_ne in H1 by congruence.
      exfalso. apply Hfresh. apply (Hmap h1 _ H1).
    + rewrite lookup_insert_ne in H1, H2 by congruence.
      apply (Hinj h1 h2 t H1 H2).
  - intros t Hin. apply elem_of_app in Hin. destruct Hin as [Hin|Hin].
    + apply Hcr in Hin. lia.
    + apply list_elem_of_singleton in Hin. subst t. lia.
  - exact Hnd.
  - intros t Hin. apply elem_of_app. left. apply Hdel, Hin.
Qed.

Lemma render_ok_destroy handle r :
  render_ok r -> render_ok (webgl_destroy_texture handle r).
Proof.
  intros Hok. pose proof Hok as (Hnext & Hmap & Hinj & Hcr & Hnd & Hdel).
  unfold webgl_destroy_texture.
  destruct (textureMap r !! handle) as [texture|] eqn:Hl; [|exact Hok].
  destruct (Hmap handle texture Hl) as (_ & Hc & Hd).
  unfold render_ok.
  cbn [gl GL.emit GL.log GL.next_object textureMap nextTextureHandle].
  rewrite created_textures_app, deleted_textures_app. cbn.
  rewrite app_nil_r.
  split; [exact Hnext|]. split; [|split; [|split; [|split]]].
  - intros h t Ht. apply lookup_delete_Some in Ht. destruct Ht as [Hne Ht].
    destruct (Hmap h t Ht) as (Hh & Hc' & Hd').
    split; [exact Hh|]. split; [exact Hc'|].
    intros Hin. apply elem_of_app in Hin. destruct Hin as [Hin|Hin];
      [exact (Hd' Hin)|].
    apply list_elem_of_singleton in Hin. subst t.
    apply Hne. apply (Hinj handle h texture Hl Ht).
  - intros h1 h2 t H1 H2.
    apply lookup_delete_Some in H1, H2.
    apply (Hinj h1 h2 t); tauto.
  - exact Hcr.
  - apply NoDup_app. split; [exact Hnd|]. split; [|apply NoDup_singleton].
    intros t Hin Hin'. apply list_elem_of_singleton in Hin'. subst t.
    exact (Hd Hin).
  - intros t Hin. apply elem_of_app in Hin. destruct Hin as [Hin|Hin];
      [apply Hdel, Hin|].
    apply list_elem_of_singleton in Hin. subst t. exact Hc.
Qed.

Lemma render_ok_set_texture handle pixel_format r :
  render_ok r -> render_ok (webgl_set_texture handle pixel_format r).
Proof.
  intros Hok. unfold webgl_set_texture.
  destruct (negb (handle =? 0)).
  - destruct (textureMap r !! handle) as [texture|]; [|exact Hok].
    unfold render_ok in *.
    cbn [gl GL.emit GL.log GL.next_object textureMap nextTextureHandle].
    rewrite created_textures_app, deleted_textures_app. cbn.
    rewrite !app_nil_r. exact Hok.
  - unfold render_ok in *.
    cbn [gl GL.emit GL.log GL.next_object textureMap nextTextureHandle].
    rewrite created_textures_app, deleted_textures_app. cbn.
    rewrite !app_nil_r. exact Hok.
Qed.

Lemma render_ok_draw buffer count vert_data vert_size vert_stride vert_offset
    uv_data uv_stride uv_offset color_data color_stride color_offset
    color_is_float r r' :
  render_ok r ->
  webgl_draw_vertex_buffer buffer count vert_data vert_size vert_stride
    vert_offset uv_data uv_stride uv_offset color_data color_stride
    color_offset color_is_float r = Some r' ->
  render_ok r'.
Proof.
  intros (Hnext & Hmap & Hinj & Hcr & Hnd & Hdel) H.
  apply webgl_draw_vertex_buffer_state in H.
  destruct H as (data & info & _ & _ & Hlog & Ho & Hm & Hn & _).
  unfold render_ok. rewrite Hlog, Ho, Hm, Hn.
  rewrite created_textures_app, deleted_textures_app. cbn.
  rewrite !app_nil_r.
  repeat split; try assumption; try (intros; eapply Hmap; eassumption).
  intros t Hin. apply Hcr in Hin. lia.
Qed.

Lemma render_ok_call buffer c r r' :
  render_ok r -> render_call buffer c r = Some r' -> render_ok r'.
Proof.
  intros Hok H. destruct c; cbn [render_call] in H.
  - apply fmap_Some in H. destruct H as ([h r1] & H & ->).
    eapply render_ok_create; eassumption.
  - injection H as <-. apply render_ok_destroy, Hok.
  - injection H as <-. apply render_ok_set_texture, Hok.
  - unfold webgl_set_matrix_projection in H.
    apply bind_Some in H. destruct H as (source & _ & H).
    injection H as <-. exact Hok.
  - unfold webgl_set_matrix_model in H.
    apply bind_Some in H. destruct H as (source & _ & H).
    injection H as <-. exact Hok.
  - eapply render_ok_draw; eassumption.
Qed.

Lemma render_ok_run cs : forall r r',
  render_ok r -> run_render cs r = Some r' -> render_ok r'.
Proof.
  induction cs as [|[buffer c] cs IH]; intros r r' Hok H.
  - injection H as <-. exact Hok.
  - cbn [run_render] in H. apply bind_Some in H.
    destruct H as (r1 & Hc & H).
    eapply IH; [|exact H]. eapply render_ok_call; eassumption.
Qed.

(** X19.  Whatever render imports the guest calls from the start of the
    page on, and with whatever arguments: every handle in the texture
    table is at least 1 and below the next handle to be handed out (so a
    create never overwrites a live entry and never hands out 0, the
    handle that unbinds); two live handles never stand for the same WebGL
    texture; every live handle stands for a texture that was created and
    not deleted; and no texture is deleted twice. *)
Theorem texture_table_consistent (cs : list (list byte * RenderCall))
    (n : GL.object) (info : option ProgramInfo) (r' : Render) :
  run_render cs (initial_render {| GL.next_object := n; GL.log := [] |} info)
  = Some r' ->
  (forall h t, textureMap r' !! h = Some t ->
               1 <= h < nextTextureHandle r'
               /\ t ∈ created_textures (GL.log (gl r'))
               /\ t ∉ deleted_textures (GL.log (gl r')))
  /\ (forall h1 h2 t, textureMap r' !! h1 = Some t ->
                      textureMap r' !! h2 = Some t -> h1 = h2)
  /\ NoDup (deleted_textures (GL.log (gl r')))
  /\ (forall t, t ∈ deleted_textures (GL.log (gl r')) ->
                t ∈ created_textures (GL.log (gl r'))).
Proof.
  intros H.
  apply (render_ok_run cs _ r' (render_ok_initial n info)) in H.
  destruct H as (_ & Hmap & Hinj & _ & Hnd & Hdel). auto.
Qed.

Lemma texture_table_consistent_witness :
  NoDup (deleted_textures (GL.log (gl Demo.after_render)))
  /\ textureMap Demo.after_render !! 2 = Some 2%nat
  /\ textureMap Demo.after_render !! 1 = None.
Proof.
  assert (H : run_render Demo.render_calls
                (initial_render {| GL.next_object := 1%nat; GL.log := [] |}
                                (Some Demo.info))
              = Some Demo.after_render) by (vm_compute; reflexivity).
  destruct (texture_table_consistent _ _ _ _ H) as (_ & _ & Hnd & _).
  split; [exact Hnd|]. split; vm_compute; reflexivity.
Defined.

(** What one render import does to the handle table: the next handle does
    not go down; the entry of a handle that was already handed out changes
    only by a destroy of that handle; and an entry that is gone stays
    gone. *)
Lemma render_call_table buffer c r r' :
  render_call buffer c r = Some r' ->
  nextTextureHandle r <= nextTextureHandle r'
  /\ (forall h, h < nextTextureHandle r -> c <> Call_destroy_texture h ->
                textureMap r' !! h = textureMap r !! h)
  /\ (forall h, h < nextTextureHandle r -> textureMap r !! h = None ->
                textureMap r' !! h = None).
Proof.
  intros H. destruct c; cbn [render_call] in H.
  - apply fmap_Some in H. destruct H as ([h1 r1] & H & ->). cbn [snd].
    apply webgl_create_texture_state in H.
    destruct H as (-> & Hn & Hm & _). rewrite Hn, Hm.
    split; [lia|]. split.
    + intros h Hh _. apply lookup_insert_ne. lia.
    + intros h Hh Hd. rewrite lookup_insert_ne by lia. exact Hd.
  - injection H as <-. rewrite webgl_destroy_texture_counter.
    split; [lia|]. unfold webgl_destroy_texture.
    destruct (textureMap r !! handle) eqn:E; cbn [textureMap].
    + split.
      * intros h _ Hc. apply lookup_delete_ne. congruence.
      * intros h _ Hd. destruct (decide (handle = h)) as [->|Hne].
        -- apply lookup_delete_eq.
        -- rewrite lookup_delete_ne by exact Hne. exact Hd.
    + split; auto.
  - injection H as <-. rewrite webgl_set_texture_counter.
    assert (Hm : textureMap (webgl_set_texture handle pixel_format r)
                 = textureMap r).
    { unfold webgl_set_texture. destruct (negb (handle =? 0)); [|reflexivity].
      destruct (textureMap r !! handle); reflexivity. }
    rewrite Hm. split; [lia|]. split; auto.
  - unfold webgl_set_matrix_projection in H.
    apply bind_Some in H. destruct H as (source & _ & H).
    injection H as <-. cbn [nextTextureHandle textureMap].
    split; [lia|]. split; auto.
  - unfold webgl_set_matrix_model in H.
    apply bind_Some in H. destruct H as (source & _ & H).
    injection H as <-. cbn [nextTextureHandle textureMap].
    split; [lia|]. split; auto.
  - apply webgl_draw_vertex_buffer_state in H.
    destruct H as (data & info & _ & _ & _ & _ & Hm & Hn & _).
    rewrite Hm, Hn. split; [lia|]. split; auto.
Qed.

Lemma run_render_table cs : forall r r',
  run_render cs r = Some r' ->
  nextTextureHandle r <= nextTextureHandle r'
  /\ (forall h, h < nextTextureHandle r ->
                Forall (fun bc => bc.2 <> Call_destroy_texture h) cs ->
                textureMap r' !! h = textureMap r !! h)
  /\ (forall h, h < nextTextureHandle r -> textureMap r !! h = None ->
                textureMap r' !! h = None).
Proof.
  induction cs as [|[buffer c] cs IH]; intros r r' H.
  - injection H as <-. split; [lia|]. split; auto.
  - cbn [run_render] in H. apply bind_Some in H.
    destruct H as (r1 & Hc & H).
    apply render_call_table in Hc. destruct Hc as (Hn1 & Hk1 & Hd1).
    apply IH in H. destruct H as (Hn2 & Hk2 & Hd2).
    split; [lia|]. split.
    + intros h Hh Hall. inversion Hall as [|? ? Hhd Htl]; subst.
      rewrite Hk2 by (lia || assumption). apply Hk1; assumption.
    + intros h Hh Hd. apply Hd2; [lia|]. apply Hd1; assumption.
Qed.

Lemma run_render_app cs1 cs2 : forall r,
  run_render (cs1 ++ cs2) r = r1 ← run_render cs1 r; run_render cs2 r1.
Proof.
  induction cs1 as [|[buffer c] cs1 IH]; intros r; [reflexivity|].
  cbn [app run_render].
  destruct (render_call buffer c r) as [r1|]; [|reflexivity].
  cbn [mbind option_bind]. apply IH.
Qed.

(** X20.  A handle that a create returned can be bound until it is
    destroyed, whatever the guest does in between.  The create leaves the
    entries of all other handles as they were.  After any render imports
    that do not destroy the handle (further creates, destroys of other
    handles, binds, matrices, draws), the handle still stands for the
    texture of its create, and binding it makes that texture current, with
    the pixel format of the bind.  After any render imports among which
    there is a destroy of the handle, the handle stands for nothing:
    binding it is ignored (no call on the context, no change of state) and
    another destroy does nothing. *)
Theorem handle_binds_until_destroyed (buffer : list byte)
    (data_ptr width height pixel_format filter : Z) (r r1 : Render)
    (handle : Z) :
  1 <= nextTextureHandle r ->
  webgl_create_texture buffer data_ptr width height pixel_format filter r
  = Some (handle, r1) ->
  (forall h, h <> handle -> textureMap r1 !! h = textureMap r !! h)
  /\ (forall cs r' format,
        Forall (fun bc => bc.2 <> Call_destroy_texture handle) cs ->
        run_render cs r1 = Some r' ->
        textureMap r' !! handle = Some (GL.next_object (gl r))
        /\ currentTexture (webgl_set_texture handle format r')
           = Some (GL.next_object (gl r))
        /\ currentTexturePixelFormat (webgl_set_texture handle format r')
           = format)
  /\ (forall cs1 buffer' cs2 r' format,
        run_render (cs1 ++ (buffer', Call_destroy_texture handle) :: cs2) r1
        = Some r' ->
        textureMap r' !! handle = None
        /\ webgl_set_texture handle format r' = r'
        /\ webgl_destroy_texture handle r' = r').
Proof.
  intros Hnext H. apply webgl_create_texture_state in H.
  destruct H as (-> & Hn & Hm & _).
  assert (Hl : textureMap r1 !! nextTextureHandle r
               = Some (GL.next_object (gl r)))
    by (rewrite Hm; apply lookup_insert_eq).
  assert (Hnz : negb (nextTextureHandle r =? 0) = true)
    by (apply negb_true_iff, Z.eqb_neq; lia).
  split; [|split].
  - intros h Hh. rewrite Hm. apply lookup_insert_ne. congruence.
  - intros cs r' format Hall Hrun.
    apply run_render_table in Hrun. destruct Hrun as (_ & Hk & _).
    assert (Hl' : textureMap r' !! nextTextureHandle r
                  = Some (GL.next_object (gl r)))
      by (rewrite Hk; [exact Hl|lia|exact Hall]).
    split; [exact Hl'|].
    unfold webgl_set_texture. rewrite Hnz, Hl'. split; reflexivity.
  - intros cs1 buffer' cs2 r' format Hrun.
    rewrite run_render_app in Hrun. apply bind_Some in Hrun.
    destruct Hrun as (ra & Ha & Hrun).
    cbn [run_render render_call mbind option_bind] in Hrun.
    apply run_render_table in Ha. destruct Ha as (Hna & _ & _).
    apply run_render_table in Hrun. destruct Hrun as (_ & _ & Hd).
    assert (Hgone : textureMap r' !! nextTextureHandle r = None).
    { apply Hd; [rewrite webgl_destroy_texture_counter; lia|].
      apply webgl_destroy_texture_gone. }
    split; [exact Hgone|]. split.
    + unfold webgl_set_texture. rewrite Hnz, Hgone. reflexivity.
    + unfold webgl_destroy_texture. rewrite Hgone. reflexivity.
Qed.

Lemma handle_binds_until_destroyed_witness :
  textureMap Demo.after_later !! 1 = Some 1%nat
  /\ currentTexture (webgl_set_texture 1 3 Demo.after_later) = Some 1%nat
  /\ currentTexturePixelFormat (webgl_set_texture 1 3 Demo.after_later) = 3.
Proof.
  destruct (handle_binds_until_destroyed Demo.vertex_memory 0 8 8 3 0
              Demo.render Demo.one_texture 1) as (_ & Hb & _).
  - vm_compute. congruence.
  - vm_compute. reflexivity.
  - apply (Hb Demo.later_calls Demo.after_later 3).
    + unfold Demo.later_calls. repeat constructor; discriminate.
    + vm_compute. reflexivity.
Defined.

(** The state that the witness reaches: two handles were handed out, the
    second was destroyed, the first is live. *)
Example after_later_table :
  nextTextureHandle Demo.after_later = 3
  /\ textureMap Demo.after_later !! 2 = None
  /\ textureMap Demo.after_later !! 1 = Some 1%nat.
Proof. repeat split; vm_compute; reflexivity. Qed.

(** The last calls of a draw: the three sampler uniforms, the draw call and
    the deletion of the buffer that the draw created. *)
Lemma webgl_draw_vertex_buffer_tail buffer count vert_data vert_size
    vert_stride vert_offset uv_data uv_stride uv_offset color_data
    color_stride color_offset color_is_float r r' :
  webgl_draw_vertex_buffer buffer count vert_data vert_size vert_stride
    vert_offset uv_data uv_stride uv_offset color_data color_stride
    color_offset color_is_float r = Some r' ->
  exists info before,
    programInfo r = Some info
    /\ GL.log (gl r')
       = before ++
         [GL.uniform1i (uniform_texture info) 0;
          GL.uniform1i (uniform_useTexture info)
                       (if currentTexture r is Some _ then 1 else 0);
          GL.uniform1i (uniform_isText info)
                       (if currentTexturePixelFormat r =? PixelFormat.ALPHA
                        then 1 else 0);
          GL.drawArrays GL.TRIANGLES 0 count;
          GL.deleteBuffer (GL.next_object (gl r))].
Proof.
  intros H. apply webgl_draw_vertex_buffer_state in H.
  destruct H as (data & info & _ & Hinfo & Hlog & _).
  exists info. eexists. split; [exact Hinfo|].
  rewrite Hlog. unfold draw_calls.
  rewrite app_assoc.
  match goal with
  | |- ?l ++ [?c1; ?c2; ?c3; ?c4; ?c5; ?c6; ?c7; ?c8; ?c9;
              ?c10; ?c11; ?c12; ?c13; ?c14] = _ =>
      change (l ++ [c1; c2; c3; c4; c5; c6; c7; c8; c9;
                    c10; c11; c12; c13; c14])
        with (l ++ [c1; c2; c3; c4; c5; c6; c7; c8; c9]
                ++ [c10; c11; c12; c13; c14])
  end.
  rewrite app_assoc. reflexivity.
Qed.

(** X21.  Unbinding does not reset the pixel format: after an ALPHA
    texture was bound and then unbound with handle 0, there is no current
    texture, yet the next draw still sets the [is_text] uniform to 1, next
    to [u_use_texture] = 0. *)
Theorem unbind_keeps_text_mode (buffer : list byte) (r r2 : Render)
    (handle format : Z) (texture : GL.object)
    (count vert_data vert_size vert_stride vert_offset uv_data uv_stride
     uv_offset color_data color_stride color_offset color_is_float : Z) :
  handle <> 0 ->
  textureMap r !! handle = Some texture ->
  webgl_draw_vertex_buffer buffer count vert_data vert_size vert_stride
    vert_offset uv_data uv_stride uv_offset color_data color_stride
    color_offset color_is_float
    (webgl_set_texture 0 format
       (webgl_set_texture handle PixelFormat.ALPHA r)) = Some r2 ->
  currentTexture (webgl_set_texture 0 format
                    (webgl_set_texture handle PixelFormat.ALPHA r)) = None
  /\ exists info before,
       programInfo r = Some info
       /\ GL.log (gl r2)
          = before ++
            [GL.uniform1i (uniform_texture info) 0;
             GL.uniform1i (uniform_useTexture info) 0;
             GL.uniform1i (uniform_isText info) 1;
             GL.drawArrays GL.TRIANGLES 0 count;
             GL.deleteBuffer
               (GL.next_object
                  (gl (webgl_set_texture 0 format
                         (webgl_set_texture handle PixelFormat.ALPHA r))))].
Proof.
  intros Hnz Hl H.
  assert (Hstate :
            currentTexture (webgl_set_texture 0 format
                              (webgl_set_texture handle PixelFormat.ALPHA r))
            = None
            /\ currentTexturePixelFormat
                 (webgl_set_texture 0 format
                    (webgl_set_texture handle PixelFormat.ALPHA r))
               = PixelFormat.ALPHA
            /\ programInfo
                 (webgl_set_texture 0 format
                    (webgl_set_texture handle PixelFormat.ALPHA r))
               = programInfo r).
  { unfold webgl_set_texture.
    replace (negb (handle =? 0)) with true
      by (symmetry; apply negb_true_iff, Z.eqb_neq; exact Hnz).
    rewrite Hl. cbn. auto. }
  destruct Hstate as (Hcur & Hfmt & Hinfo).
  split; [exact Hcur|].
  apply webgl_draw_vertex_buffer_tail in H.
  destruct H as (info & before & Hi & Hlog).
  rewrite Hcur, Hfmt in Hlog. rewrite Hinfo in Hi.
  exists info, before. split; [exact Hi|exact Hlog].
Qed.

Lemma unbind_keeps_text_mode_witness :
  exists r2 before,
    webgl_draw_vertex_buffer Demo.vertex_memory 3 0 2 20 0 0 20 8 0 20 16 1
      (webgl_set_texture 0 0 (webgl_set_texture 1 PixelFormat.ALPHA
                                                Demo.one_texture)) = Some r2
    /\ GL.log (gl r2)
       = before ++
         [GL.uniform1i 2 0; GL.uniform1i 3 0; GL.uniform1i 4 1;
          GL.drawArrays GL.TRIANGLES 0 3; GL.deleteBuffer 2%nat].
Proof.
  destruct (webgl_draw_vertex_buffer Demo.vertex_memory 3 0 2 20 0 0 20 8 0
              20 16 1
              (webgl_set_texture 0 0 (webgl_set_texture 1 PixelFormat.ALPHA
                                                        Demo.one_texture)))
    as [r2|] eqn:E; [|vm_compute in E; discriminate E].
  destruct (unbind_keeps_text_mode Demo.vertex_memory Demo.one_texture r2
              1 0 1%nat 3 0 2 20 0 0 20 8 0 20 16 1)
    as (_ & info & before & Hi & Hlog).
  - discriminate.
  - vm_compute. reflexivity.
  - exact E.
  - vm_compute in Hi. injection Hi as <-.
    exists r2, before. split; [reflexivity|exact Hlog].
Defined.

(** X22.  Destroying the texture that is bound does not unbind it: the
    handle leaves the table and the texture is deleted, but it stays the
    current texture, and the next draw still sets [u_use_texture] to 1. *)
Theorem destroy_leaves_binding (buffer : list byte) (r r2 : Render)
    (handle : Z) (texture : GL.object)
    (count vert_data vert_size vert_stride vert_offset uv_data uv_stride
     uv_offset color_data color_stride color_offset color_is_float : Z) :
  textureMap r !! handle = Some texture ->
  currentTexture r = Some texture ->
  webgl_draw_vertex_buffer buffer count vert_data vert_size vert_stride
    vert_offset uv_data uv_stride uv_offset color_data color_stride
    color_offset color_is_float (webgl_destroy_texture handle r) = Some r2 ->
  textureMap (webgl_destroy_texture handle r) !! handle = None
  /\ texture ∈ deleted_textures (GL.log (gl (webgl_destroy_texture handle r)))
  /\ currentTexture (webgl_destroy_texture handle r) = Some texture
  /\ exists info before,
       programInfo r = Some info
       /\ GL.log (gl r2)
          = before ++
            [GL.uniform1i (uniform_texture info) 0;
             GL.uniform1i (uniform_useTexture info) 1;
             GL.uniform1i (uniform_isText info)
                          (if currentTexturePixelFormat r =? PixelFormat.ALPHA
                           then 1 else 0);
             GL.drawArrays GL.TRIANGLES 0 count;
             GL.deleteBuffer (GL.next_object (gl r))].
Proof.
  intros Hl Hcur H.
  split; [apply webgl_destroy_texture_gone|].
  apply webgl_draw_vertex_buffer_tail in H.
  destruct H as (info & before & Hi & Hlog).
  unfold webgl_destroy_texture in *. rewrite Hl in *.
  cbn [gl GL.emit GL.log GL.next_object currentTexture programInfo
       currentTexturePixelFormat] in *.
  split; [rewrite deleted_textures_app; apply elem_of_app; right; left|].
  split; [exact Hcur|].
  rewrite Hcur in Hlog. exists info, before. auto.
Qed.

Lemma destroy_leaves_binding_witness :
  exists r2 before,
    webgl_draw_vertex_buffer Demo.vertex_memory 3 0 2 20 0 0 20 8 0 20 16 1
      (webgl_destroy_texture 1 (webgl_set_texture 1 0 Demo.one_texture))
    = Some r2
    /\ GL.log (gl r2)
       = before ++
         [GL.uniform1i 2 0; GL.uniform1i 3 1; GL.uniform1i 4 0;
          GL.drawArrays GL.TRIANGLES 0 3; GL.deleteBuffer 2%nat].
Proof.
  destruct (webgl_draw_vertex_buffer Demo.vertex_memory 3 0 2 20 0 0 20 8 0
              20 16 1
              (webgl_destroy_texture 1
                 (webgl_set_texture 1 0 Demo.one_texture)))
    as [r2|] eqn:E; [|vm_compute in E; discriminate E].
  destruct (destroy_leaves_binding Demo.vertex_memory
              (webgl_set_texture 1 0 Demo.one_texture) r2
              1 1%nat 3 0 2 20 0 0 20 8 0 20 16 1)
    as (_ & _ & _ & info & before & Hi & Hlog).
  - vm_compute. reflexivity.
  - vm_compute. reflexivity.
  - exact E.
  - vm_compute in Hi. injection Hi as <-.
    exists r2, before. split; [reflexivity|exact Hlog].
Defined.

Lemma float32_array_by_ptr_Some buffer ptr count data :
  float32_array_by_ptr buffer ptr count = Some data <->
  ptr mod 4 = 0 /\ in_bounds buffer ptr (4 * count)
  /\ data = take (Z.to_nat (4 * count)) (drop (Z.to_nat ptr) buffer).
Proof.
  unfold float32_array_by_ptr, Uint8Array. split.
  - case_decide; [|discriminate]. case_decide; [|discriminate].
    intros [= <-]. auto.
  - intros (Ha & Hb & ->).
    rewrite decide_True by exact Ha. rewrite decide_True by exact Hb.
    reflexivity.
Qed.

(** X23.  A draw returns exactly when the vertex pointer is a multiple of
    4, the vertex data (the whole 32-bit floats in [count * vert_stride]
    bytes) lies in the guest's memory, and [webgl_init] has set
    [programInfo]; otherwise it raises an exception. *)
Theorem draw_returns_iff (buffer : list byte)
    (count vert_data vert_size vert_stride vert_offset uv_data uv_stride
     uv_offset color_data color_stride color_offset color_is_float : Z)
    (r : Render) :
  is_Some (webgl_draw_vertex_buffer buffer count vert_data vert_size
             vert_stride vert_offset uv_data uv_stride uv_offset color_data
             color_stride color_offset color_is_float r)
  <-> vert_data mod 4 = 0
      /\ in_bounds buffer vert_data (4 * Z.quot (count * vert_stride) 4)
      /\ is_Some (programInfo r).
Proof.
  split.
  - intros [r' H]. apply webgl_draw_vertex_buffer_state in H.
    destruct H as (data & info & Hdata & Hinfo & _).
    apply float32_array_by_ptr_Some in Hdata.
    destruct Hdata as (Ha & Hb & _). rewrite Hinfo. eauto.
  - intros (Ha & Hb & [info Hinfo]).
    unfold webgl_draw_vertex_buffer. cbn [GL.fresh].
    rewrite (proj2 (float32_array_by_ptr_Some buffer vert_data _ _)
                   (conj Ha (conj Hb eq_refl))).
    cbn [mbind option_bind]. rewrite Hinfo. cbn. eauto.
Qed.

(** X24.  A draw that returns is self-contained: it creates one buffer,
    uploads to it the bytes of the guest's memory at [vert_data]
    ([count * vert_stride] bytes, cut down to whole 32-bit floats), and
    deletes that buffer as its last call; the texture table, the next
    handle, the current texture and the matrices are as before. *)
Theorem draw_is_self_contained (buffer : list byte)
    (count vert_data vert_size vert_stride vert_offset uv_data uv_stride
     uv_offset color_data color_stride color_offset color_is_float : Z)
    (r r' : Render) :
  webgl_draw_vertex_buffer buffer count vert_data vert_size vert_stride
    vert_offset uv_data uv_stride uv_offset color_data color_stride
    color_offset color_is_float r = Some r' ->
  exists data middle,
    GL.log (gl r')
    = GL.log (gl r) ++
      [GL.createBuffer (GL.next_object (gl r));
       GL.bindBuffer GL.ARRAY_BUFFER (GL.next_object (gl r));
       GL.bufferData GL.ARRAY_BUFFER data GL.STREAM_DRAW] ++
      middle ++ [GL.deleteBuffer (GL.next_object (gl r))]
    /\ Uint8Array buffer vert_data (Z.of_nat (length data)) = Some data
    /\ Z.of_nat (length data) mod 4 = 0
    /\ count * vert_stride - 4 < Z.of_nat (length data)
    /\ (0 <= count * vert_stride ->
        Z.of_nat (length data) <= count * vert_stride)
    /\ textureMap r' = textureMap r
    /\ nextTextureHandle r' = nextTextureHandle r
    /\ currentTexture r' = currentTexture r
    /\ currentTexturePixelFormat r' = currentTexturePixelFormat r
    /\ matProj r' = matProj r /\ matModel r' = matModel r.
Proof.
  intros H. apply webgl_draw_vertex_buffer_state in H.
  destruct H as (data & info & Hdata & _ & Hlog & _ & Hm & Hn & Hc & Hf
                 & Hp & Hmo & _).
  apply float32_array_by_ptr_Some in Hdata.
  destruct Hdata as (_ & Hb & Hd).
  pose proof Hb as (Hoff & Hlen & Hfit).
  assert (Hsize : Z.of_nat (length data) = 4 * Z.quot (count * vert_stride) 4).
  { rewrite Hd, length_take, length_drop. lia. }
  exists data. eexists.
  split.
  { rewrite Hlog. unfold draw_calls.
    match goal with
    | |- _ ++ _ ++ [?c1; ?c2; ?c3; ?c4; ?c5; ?c6; ?c7; ?c8; ?c9;
                    ?c10; ?c11; ?c12; ?c13; ?c14] = _ =>
        change [c1; c2; c3; c4; c5; c6; c7; c8; c9; c10; c11; c12; c13; c14]
          with ([c1; c2; c3; c4; c5; c6; c7; c8; c9; c10; c11; c12; c13]
                  ++ [c14])
    end.
    reflexivity. }
  split.
  { rewrite Hsize. unfold Uint8Array. rewrite decide_True by exact Hb.
    rewrite Hd. reflexivity. }
  pose proof (Z.quot_rem' (count * vert_stride) 4) as Hqr.
  split; [rewrite Hsize, Z.mul_comm; apply Z_mod_mult|].
  split.
  { rewrite Hsize.
    pose proof (Z.rem_bound_abs (count * vert_stride) 4 ltac:(lia)).
    lia. }
  split.
  { intros Hpos. rewrite Hsize.
    pose proof (Z.rem_bound_pos (count * vert_stride) 4 Hpos ltac:(lia)).
    lia. }
  auto 10.
Qed.

Lemma draw_is_self_contained_witness :
  exists r' data middle,
    webgl_draw_vertex_buffer Demo.vertex_memory 3 0 2 20 0 0 20 8 0 20 16 1
                             Demo.render = Some r'
    /\ GL.log (gl r')
       = [GL.createBuffer 1%nat; GL.bindBuffer GL.ARRAY_BUFFER 1%nat;
          GL.bufferData GL.ARRAY_BUFFER data GL.STREAM_DRAW] ++
         middle ++ [GL.deleteBuffer 1%nat]
    /\ Z.of_nat (length data) <= 60.
Proof.
  destruct (webgl_draw_vertex_buffer Demo.vertex_memory 3 0 2 20 0 0 20 8 0
              20 16 1 Demo.render) as [r'|] eqn:E;
    [|vm_compute in E; discriminate E].
  destruct (draw_is_self_contained _ _ _ _ _ _ _ _ _ _ _ _ _ _ _ E)
    as (data & middle & Hlog & _ & _ & _ & Hle & _).
  exists r', data, middle. split; [reflexivity|].
  split; [exact Hlog|]. apply Hle. lia.
Defined.

Lemma webgl_set_matrix_projection_Some buffer mat r r1 :
  webgl_set_matrix_projection buffer mat r = Some r1 ->
  mat mod 4 = 0 /\ in_bounds buffer mat 64
  /\ matProj r1 = take 64 (drop (Z.to_nat mat) buffer)
  /\ matModel r1 = matModel r /\ programInfo r1 = programInfo r
  /\ currentTexture r1 = currentTexture r
  /\ currentTexturePixelFormat r1 = currentTexturePixelFormat r
  /\ gl r1 = gl r.
Proof.
  unfold webgl_set_matrix_projection. intros H.
  apply bind_Some in H. destruct H as (source & Hs & H).
  injection H as <-. apply float32_array_by_ptr_Some in Hs.
  destruct Hs as (Ha & Hb & ->). cbn. auto 10.
Qed.

Lemma webgl_set_matrix_model_Some buffer mat r r1 :
  webgl_set_matrix_model buffer mat r = Some r1 ->
  mat mod 4 = 0 /\ in_bounds buffer mat 64
  /\ matModel r1 = take 64 (drop (Z.to_nat mat) buffer)
  /\ matProj r1 = matProj r /\ programInfo r1 = programInfo r
  /\ currentTexture r1 = currentTexture r
  /\ currentTexturePixelFormat r1 = currentTexturePixelFormat r
  /\ gl r1 = gl r.
Proof.
  unfold webgl_set_matrix_model. intros H.
  apply bind_Some in H. destruct H as (source & Hs & H).
  injection H as <-. apply float32_array_by_ptr_Some in Hs.
  destruct Hs as (Ha & Hb & ->). cbn. auto 10.
Qed.

(** X25.  The matrix setters copy: a setter that returns read 64 bytes at a
    pointer that is a multiple of 4 and inside the guest's memory, and a
    later draw passes exactly those bytes as the [proj] (or [model])
    uniform, whatever the guest's memory holds at the time of the draw. *)
Theorem matrix_copied_when_set (buffer buffer2 : list byte) (mat : Z)
    (r r1 r2 : Render)
    (count vert_data vert_size vert_stride vert_offset uv_data uv_stride
     uv_offset color_data color_stride color_offset color_is_float : Z) :
  webgl_draw_vertex_buffer buffer2 count vert_data vert_size vert_stride
    vert_offset uv_data uv_stride uv_offset color_data color_stride
    color_offset color_is_float r1 = Some r2 ->
  (webgl_set_matrix_projection buffer mat r = Some r1 ->
   mat mod 4 = 0 /\ in_bounds buffer mat 64
   /\ exists info,
        programInfo r = Some info
        /\ GL.uniformMatrix4fv (uniform_projectionMatrix info) false
                               (take 64 (drop (Z.to_nat mat) buffer))
           ∈ GL.log (gl r2)
        /\ GL.uniformMatrix4fv (uniform_modelViewMatrix info) false
                               (matModel r) ∈ GL.log (gl r2))
  /\ (webgl_set_matrix_model buffer mat r = Some r1 ->
      mat mod 4 = 0 /\ in_bounds buffer mat 64
      /\ exists info,
           programInfo r = Some info
           /\ GL.uniformMatrix4fv (uniform_modelViewMatrix info) false
                                  (take 64 (drop (Z.to_nat mat) buffer))
              ∈ GL.log (gl r2)
           /\ GL.uniformMatrix4fv (uniform_projectionMatrix info) false
                                  (matProj r) ∈ GL.log (gl r2)).
Proof.
  intros Hdraw. apply webgl_draw_vertex_buffer_state in Hdraw.
  destruct Hdraw as (data & info & _ & Hinfo & Hlog & _).
  assert (Hp : GL.uniformMatrix4fv (uniform_projectionMatrix info) false
                                   (matProj r1) ∈ GL.log (gl r2)).
  { rewrite Hlog. apply elem_of_app. right. apply elem_of_app. right.
    unfold draw_calls. do 7 right. left. }
  assert (Hm : GL.uniformMatrix4fv (uniform_modelViewMatrix info) false
                                   (matModel r1) ∈ GL.log (gl r2)).
  { rewrite Hlog. apply elem_of_app. right. apply elem_of_app. right.
    unfold draw_calls. do 8 right. left. }
  split; intros Hset.
  - apply webgl_set_matrix_projection_Some in Hset.
    destruct Hset as (Ha & Hb & Hproj & Hmodel & Hi & _).
    rewrite Hproj in Hp. rewrite Hmodel in Hm. rewrite Hi in Hinfo.
    split; [exact Ha|]. split; [exact Hb|]. exists info. auto.
  - apply webgl_set_matrix_model_Some in Hset.
    destruct Hset as (Ha & Hb & Hmodel & Hproj & Hi & _).
    rewrite Hproj in Hp. rewrite Hmodel in Hm. rewrite Hi in Hinfo.
    split; [exact Ha|]. split; [exact Hb|]. exists info. auto.
Qed.

Lemma matrix_copied_when_set_witness :
  GL.uniformMatrix4fv 0 false (take 64 (drop (Z.to_nat 16) Demo.matrix_memory))
  ∈ GL.log (gl Demo.after_matrix_draw).
Proof.
  assert (Hset : webgl_set_matrix_projection Demo.matrix_memory 16 Demo.render
                 = Some Demo.after_matrix) by (vm_compute; reflexivity).
  assert (Hdraw : webgl_draw_vertex_buffer Demo.vertex_memory 3 0 2 20 0 0 20
                    8 0 20 16 1 Demo.after_matrix
                  = Some Demo.after_matrix_draw) by (vm_compute; reflexivity).
  destruct (proj1 (matrix_copied_when_set _ _ _ _ _ _ _ _ _ _ _ _ _ _ _ _ _ _
                     Hdraw) Hset)
    as (_ & _ & info & Hi & Hin & _).
  vm_compute in Hi. injection Hi as <-. exact Hin.
Defined.
